(** * Product option manager: persistence layer, option transformation and
      client state store

    A shallow embedding of
    - [app/utils/optionUtils.js]  (pure UI-shape transformations),
    - [app/hooks/useOptions.js]   (the client state store of the hook),
    - [app/lib/shop.server.js]    (the Prisma-backed persistence layer),
    together with the part of [prisma/schema.prisma] the persistence layer
    relies on (tables, unique indexes, cascade).

    JavaScript objects are records; a property that may be absent is an
    [option] field ([None] is [undefined]).  Arrays are lists.  The storage
    engine is an explicit world that every persistence operation threads
    through; a thrown exception is the [Throw] outcome of the operation.
    Console output and the [isInitialized] flag of the hook are not part
    of any state modelled here. *)

From Stdlib Require Import List String Ascii ZArith Bool Lia Arith.
From Stdlib Require Import Sorting.Sorted Sorting.Permutation.
From Stdlib Require Import DecimalString.
Import ListNotations.

Local Open Scope Z_scope.
Local Open Scope list_scope.

(* ================================================================== *)
(** ** JavaScript idioms used by the sources *)
(* ================================================================== *)

Module Js.

(** Truthiness of a present value, per type ([""], [0] and [false] are
    falsy). *)
Class Truthy (A : Type) : Type := truthy : A -> bool.

#[global] Instance Truthy_string : Truthy string :=
  fun s => negb (String.eqb s EmptyString).
#[global] Instance Truthy_Z : Truthy Z :=
  fun n => negb (Z.eqb n 0).
#[global] Instance Truthy_bool : Truthy bool :=
  fun b => b.

(** [x || d] where [x] is a possibly absent property: [undefined] and
    falsy values both yield [d]. *)
Definition or_else {A : Type} `{Truthy A} (x : option A) (d : A) : A :=
  match x with
  | Some a => if truthy a then a else d
  | None => d
  end.

(** Destructuring default [{ x = d } = obj]: only [undefined] yields [d]. *)
Definition default_to {A : Type} (x : option A) (d : A) : A :=
  match x with
  | Some a => a
  | None => d
  end.

(** [Array.prototype.map] with the element index as second argument. *)
Fixpoint mapi_from {A B : Type} (f : A -> nat -> B) (i : nat) (l : list A)
  : list B :=
  match l with
  | [] => []
  | x :: xs => f x i :: mapi_from f (S i) xs
  end.

Definition mapi {A B : Type} (f : A -> nat -> B) (l : list A) : list B :=
  mapi_from f 0 l.

(** [Array.prototype.every]. *)
Definition every {A : Type} (p : A -> bool) (l : list A) : bool :=
  forallb p l.

(** [Array.prototype.some]. *)
Definition some {A : Type} (p : A -> bool) (l : list A) : bool :=
  existsb p l.

(** [Array.prototype.includes] on strings. *)
Definition includes (l : list string) (s : string) : bool :=
  existsb (String.eqb s) l.

(** [Array.prototype.join]. *)
Definition join (sep : string) (l : list string) : string :=
  String.concat sep l.

End Js.

(* ================================================================== *)
(** ** UI shape of options (client side) *)
(* ================================================================== *)

(** An option identifier on the client: a [cuid] string coming from the
    server, or the number [Date.now()] of an optimistic entry. *)
Inductive Id : Type :=
| IdStr (s : string)
| IdNum (n : Z).

(** Strict equality [===] on identifiers. *)
Definition Id_eqb (a b : Id) : bool :=
  match a, b with
  | IdStr s, IdStr t => String.eqb s t
  | IdNum n, IdNum m => Z.eqb n m
  | _, _ => false
  end.

#[global] Instance Truthy_Id : Js.Truthy Id :=
  fun i => match i with
           | IdStr s => Js.truthy s
           | IdNum n => Js.truthy n
           end.

Module UiValue.
Record t : Type := mk
  { name : string;
    checked : bool;
    position : option Z }.

(** [{ ...v, checked: c }] *)
Definition with_checked (c : bool) (v : t) : t :=
  mk (name v) c (position v).
End UiValue.

Module UiOption.
Record t : Type := mk
  { id : Id;
    name : string;
    type : string;
    position : option Z;
    isRequired : option bool;
    values : list UiValue.t }.

(** [{ ...option, values: vs }] *)
Definition with_values (vs : list UiValue.t) (o : t) : t :=
  mk (id o) (name o) (type o) (position o) (isRequired o) vs.
End UiOption.

(** The JSON shape of an option as the loader hands it to the client. *)
Module LoadedValue.
Record t : Type := mk
  { value : string;
    isActive : bool;
    position : option Z }.
End LoadedValue.

Module LoadedOption.
Record t : Type := mk
  { id : string;
    name : string;
    type : option string;
    position : option Z;
    isRequired : option bool;
    values : list LoadedValue.t }.
End LoadedOption.

(** The payload of a submission: what the modals hand to [onSubmit] and
    what travels as the [optionSet] form field. *)
Module SubmitData.
Record t : Type := mk
  { optionName : string;
    values : list string;
    optionType : string }.
End SubmitData.

(* ================================================================== *)
(** ** app/utils/optionUtils.js *)
(* ================================================================== *)

Module OptionUtils.

(** [createOptionObject]; [now] is the value of [Date.now()]. *)
Definition createOptionObject (now : Z) (optionName : string)
    (values : list string) (optionType : string) : UiOption.t :=
  UiOption.mk (IdNum now) optionName optionType None None
    (map (fun v => UiValue.mk v true None) values).

(** [updateOptionObject]. *)
Definition updateOptionObject (originalOption : UiOption.t)
    (optionName : string) (values : list string) (optionType : string)
  : UiOption.t :=
  UiOption.mk
    (UiOption.id originalOption)
    optionName
    optionType
    (UiOption.position originalOption)
    (UiOption.isRequired originalOption)
    (map (fun v =>
            let existingValue :=
              find (fun ev => String.eqb (UiValue.name ev) v)
                   (UiOption.values originalOption) in
            UiValue.mk v
              (match existingValue with
               | Some ev => UiValue.checked ev
               | None => true
               end)
              None)
         values).

(** [transformLoadedOptions]. *)
Definition transformLoadedOptions (loadedOptions : list LoadedOption.t)
  : list UiOption.t :=
  map (fun option =>
         UiOption.mk
           (IdStr (LoadedOption.id option))
           (LoadedOption.name option)
           (Js.or_else (LoadedOption.type option) "text"%string)
           None
           None
           (map (fun value =>
                   UiValue.mk (LoadedValue.value value)
                              (LoadedValue.isActive value)
                              None)
                (LoadedOption.values option)))
      loadedOptions.


End OptionUtils.

(* ================================================================== *)
(** ** app/hooks/useOptions.js *)
(* ================================================================== *)

Module UseOptions.

(** The [options] state of the hook. *)
Definition Store : Type := list UiOption.t.

(** [transformOptions]. *)
Definition transformOptions (serverOptions : list LoadedOption.t)
  : list UiOption.t :=
  map (fun option =>
         UiOption.mk
           (IdStr (LoadedOption.id option))
           (LoadedOption.name option)
           (Js.or_else (LoadedOption.type option) "text"%string)
           (Some (Js.or_else (LoadedOption.position option) 0))
           (Some (Js.or_else (LoadedOption.isRequired option) true))
           (map (fun value =>
                   UiValue.mk (LoadedValue.value value)
                              (LoadedValue.isActive value)
                              (Some (Js.or_else (LoadedValue.position value) 0)))
                (LoadedOption.values option)))
      serverOptions.

(** The [useEffect] that runs when [loadedOptions] changes identity:
    an array replaces the whole state, anything else ([None]) leaves it. *)
Definition syncFromServer (loadedOptions : option (list LoadedOption.t))
    (options : Store) : Store :=
  match loadedOptions with
  | Some l => transformOptions l
  | None => options
  end.

(** [resetOptions]. *)
Definition resetOptions (_ : Store) : Store := [].

(** [handleToggleValueChecked]. *)
Definition handleToggleValueChecked (optionId : Id)
    (valueNameToToggle : string) (currentOptions : Store) : Store :=
  map (fun option =>
         if Id_eqb (UiOption.id option) optionId then
           UiOption.with_values
             (map (fun v =>
                     if String.eqb (UiValue.name v) valueNameToToggle
                     then UiValue.with_checked (negb (UiValue.checked v)) v
                     else v)
                  (UiOption.values option))
             option
         else option)
      currentOptions.

(** [handleToggleAllValues]. *)
Definition handleToggleAllValues (optionId : Id) (currentOptions : Store)
  : Store :=
  map (fun option =>
         if Id_eqb (UiOption.id option) optionId then
           let allChecked :=
             Js.every UiValue.checked (UiOption.values option) in
           UiOption.with_values
             (map (UiValue.with_checked (negb allChecked))
                  (UiOption.values option))
             option
         else option)
      currentOptions.

(** [addOption]; the argument is [None] for [null]/[undefined]. *)
Definition addOption (newOption : option UiOption.t) (prevOptions : Store)
  : Store :=
  match newOption with
  | None => prevOptions
  | Some newOption =>
      if negb (Js.truthy (UiOption.id newOption)) then prevOptions
      else
        let existingOption :=
          find (fun opt => Id_eqb (UiOption.id opt) (UiOption.id newOption))
               prevOptions in
        match existingOption with
        | Some _ =>
            map (fun opt =>
                   if Id_eqb (UiOption.id opt) (UiOption.id newOption)
                   then newOption else opt)
                prevOptions
        | None => prevOptions ++ [newOption]
        end
  end.

(** [updateOption]. *)
Definition updateOption (updatedOption : option UiOption.t)
    (prevOptions : Store) : Store :=
  match updatedOption with
  | None => prevOptions
  | Some updatedOption =>
      if negb (Js.truthy (UiOption.id updatedOption)) then prevOptions
      else
        let optionExists :=
          Js.some (fun opt =>
                     Id_eqb (UiOption.id opt) (UiOption.id updatedOption))
                  prevOptions in
        if negb optionExists then prevOptions ++ [updatedOption]
        else
          map (fun option =>
                 if Id_eqb (UiOption.id option) (UiOption.id updatedOption)
                 then updatedOption else option)
              prevOptions
  end.

(** The [optionIds] argument of [removeOptions]: one id or an array. *)
Inductive IdOrIds : Type :=
| SingleId (optionId : Id)
| IdArray (optionIds : list Id).

(** [removeOptions]. *)
Definition removeOptions (optionIds : IdOrIds) (prevOptions : Store)
  : Store :=
  let idsArray :=
    match optionIds with
    | IdArray l => l
    | SingleId i => [i]
    end in
  match idsArray with
  | [] => prevOptions
  | _ =>
      filter (fun option =>
                negb (existsb (Id_eqb (UiOption.id option)) idsArray))
             prevOptions
  end.

(** [getOption]: [options.find(...) || null], [None] for [null]. *)
Definition getOption (optionId : Id) (options : Store) : option UiOption.t :=
  find (fun option => Id_eqb (UiOption.id option) optionId) options.

(** [getOptionsCount]. *)
Definition getOptionsCount (options : Store) : nat :=
  List.length options.

End UseOptions.


(* ================================================================== *)
(** ** Storage: the tables of prisma/schema.prisma and the Prisma client
       calls the persistence layer makes *)
(* ================================================================== *)

(** Row of table [variant_options] ([createdAt] and [updatedAt] are not
    read by any function of the persistence layer and are left out). *)
Module VariantOption.
Record t : Type := mk
  { id : string;
    name : string;
    type : string;
    position : Z;
    isRequired : bool;
    shop : string }.
End VariantOption.

(** Row of table [variant_option_values]. *)
Module VariantOptionValue.
Record t : Type := mk
  { id : string;
    value : string;
    position : Z;
    isActive : bool;
    variantOptionId : string }.
End VariantOptionValue.

(** An option returned with [include: { values: ... }]. *)
Module OptionWithValues.
Record t : Type := mk
  { row : VariantOption.t;
    values : list VariantOptionValue.t }.
End OptionWithValues.

Module Storage.

(** Exceptions: the class of the thrown object and its [message]. *)
Inductive ErrorClass : Type :=
| PlainError          (* [new Error(...)] *)
| PrismaClientError.  (* any error raised by the Prisma client *)

Record JsError : Type := mkError
  { cls : ErrorClass;
    message : string }.

(** The world the persistence layer runs in: both tables in storage
    order, the supply of fresh [cuid()]s, and the faults of the engine:
    the n-th entry says whether the n-th storage call from now fails for a
    reason of the engine's own (connection lost, disk full, ...), with its
    message. *)
Record World : Type := mkWorld
  { variant_options : list VariantOption.t;
    variant_option_values : list VariantOptionValue.t;
    next_cuid : nat;
    faults : list (option string) }.

Inductive Outcome (A : Type) : Type :=
| Return (a : A)
| Throw (e : JsError).
Arguments Return {A} a.
Arguments Throw {A} e.

(** Computations of the persistence layer: state passing with exceptions.
    The world is threaded through a [Throw] as well: what was written
    before the exception stays written. *)
Definition M (A : Type) : Type := World -> Outcome A * World.

Definition ret {A : Type} (a : A) : M A := fun w => (Return a, w).

Definition throw {A : Type} (e : JsError) : M A := fun w => (Throw e, w).

Definition bind {A B : Type} (m : M A) (k : A -> M B) : M B :=
  fun w =>
    match m w with
    | (Return a, w') => k a w'
    | (Throw e, w') => (Throw e, w')
    end.

(** [try { m } catch (error) { handler(error) }]. *)
Definition try_catch {A : Type} (m : M A) (handler : JsError -> M A) : M A :=
  fun w =>
    match m w with
    | (Return a, w') => (Return a, w')
    | (Throw e, w') => handler e w'
    end.

Declare Scope storage_scope.
Delimit Scope storage_scope with storage.
Notation "x <- m ;; k" := (bind m (fun x => k))
  (at level 100, m at next level, right associativity) : storage_scope.
Local Open Scope storage_scope.

Definition set_tables (os : list VariantOption.t)
    (vs : list VariantOptionValue.t) (w : World) : World :=
  mkWorld os vs (next_cuid w) (faults w).

(** Every call to the client first reaches the engine, which consumes
    the next entry of [faults] and fails if it holds a message. *)
Definition pop_fault (w : World) : World :=
  mkWorld (variant_options w) (variant_option_values w) (next_cuid w)
          (tl (faults w)).

Definition engine : M unit :=
  fun w =>
    match hd None (faults w) with
    | None => (Return tt, pop_fault w)
    | Some msg => (Throw (mkError PrismaClientError msg), pop_fault w)
    end.

(** [@default(cuid())]: the n-th identifier handed out; a [cuid] never
    collides with a stored id, so no primary-key failure is modelled for
    the rows a nested write creates. *)
Definition cuid (n : nat) : string :=
  String "c" (NilEmpty.string_of_uint (Nat.to_uint n)).

Definition fresh_cuids (n : nat) : M (list string) :=
  fun w =>
    (Return (map (fun i => cuid (next_cuid w + i)) (seq 0 n)),
     mkWorld (variant_options w) (variant_option_values w)
             (next_cuid w + n)%nat (faults w)).

(** [ORDER BY key ASC]: insertion of a row into an ordered result. *)
Fixpoint insert_by {A : Type} (key : A -> Z) (x : A) (l : list A) : list A :=
  match l with
  | [] => [x]
  | y :: ys => if key x <=? key y then x :: l else y :: insert_by key x ys
  end.

Definition order_by {A : Type} (key : A -> Z) (l : list A) : list A :=
  fold_right (insert_by key) [] l.

Fixpoint has_dup (l : list string) : bool :=
  match l with
  | [] => false
  | x :: xs => Js.includes xs x || has_dup xs
  end.

(** The [value] property of a nested create: what [value.value || value]
    evaluates to is a string, or the input object itself. *)
Inductive ValueInput : Type :=
| Raw (s : string)
| Obj (value : option string) (position : option Z) (isActive : option bool).

Inductive ValueField : Type :=
| FString (s : string)
| FObject (o : ValueInput).

Record ValueCreate : Type := mkValueCreate
  { vc_value : ValueField;
    vc_position : Z;
    vc_isActive : bool }.

(** The client validates the arguments against the schema before it
    queries: [value] is a [String] column. *)
Fixpoint validate_values (l : list ValueCreate)
  : option (list (string * Z * bool)) :=
  match l with
  | [] => Some []
  | v :: vs =>
      match vc_value v, validate_values vs with
      | FString s, Some rest =>
          Some ((s, vc_position v, vc_isActive v) :: rest)
      | _, _ => None
      end
  end.

Definition validation_error : JsError :=
  mkError PrismaClientError "Invalid invocation: Argument `value`: Invalid value provided. Expected String, provided Object.".

Definition unique_shop_name_error : JsError :=
  mkError PrismaClientError "Unique constraint failed on the fields: (`shop`,`name`)".

Definition unique_option_value_error : JsError :=
  mkError PrismaClientError "Unique constraint failed on the fields: (`variantOptionId`,`value`)".

Definition record_not_found_error : JsError :=
  mkError PrismaClientError "An operation failed because it depends on one or more records that were required but not found. Record to update not found.".

Definition value_rows (optionId : string) (ids : list string)
    (vals : list (string * Z * bool)) : list VariantOptionValue.t :=
  map (fun '(vid, (v, p, a)) => VariantOptionValue.mk vid v p a optionId)
      (combine ids vals).

Definition values_of (optionId : string) (vs : list VariantOptionValue.t)
  : list VariantOptionValue.t :=
  filter (fun v => String.eqb (VariantOptionValue.variantOptionId v) optionId)
         vs.

Definition values_not_of (optionId : string)
    (vs : list VariantOptionValue.t) : list VariantOptionValue.t :=
  filter (fun v =>
            negb (String.eqb (VariantOptionValue.variantOptionId v) optionId))
         vs.

(** [prisma.variantOption.create({ data: { ..., values: { create } },
    include: { values: true } })]: one nested write, all or nothing. *)
Definition variantOption_create (name type : string) (position : Z)
    (isRequired : bool) (shop : string) (values : list ValueCreate)
  : M OptionWithValues.t :=
  _ <- engine ;;
  match validate_values values with
  | None => throw validation_error
  | Some vals =>
      fun w =>
        if existsb (fun o => String.eqb (VariantOption.shop o) shop
                             && String.eqb (VariantOption.name o) name)
                   (variant_options w)
        then (Throw unique_shop_name_error, w)
        else if has_dup (map (fun '(v, _, _) => v) vals)
        then (Throw unique_option_value_error, w)
        else
          (oid <- fresh_cuids 1 ;;
           vids <- fresh_cuids (List.length vals) ;;
           let optionId := hd EmptyString oid in
           let o := VariantOption.mk optionId name type position isRequired
                                     shop in
           let rows := value_rows optionId vids vals in
           fun w =>
             (Return (OptionWithValues.mk o rows),
              set_tables (variant_options w ++ [o])
                         (variant_option_values w ++ rows) w)) w
  end.

(** [prisma.variantOption.findMany({ where: { shop }, include: { values:
    { orderBy: { position: 'asc' } } }, orderBy: { position: 'asc' } })]. *)
Definition variantOption_findMany_shop (shop : string)
  : M (list OptionWithValues.t) :=
  _ <- engine ;;
  fun w =>
    (Return
       (map (fun o =>
               OptionWithValues.mk o
                 (order_by VariantOptionValue.position
                    (values_of (VariantOption.id o)
                               (variant_option_values w))))
            (order_by VariantOption.position
               (filter (fun o => String.eqb (VariantOption.shop o) shop)
                       (variant_options w)))),
     w).

(** [prisma.variantOptionValue.deleteMany({ where: { variantOptionId } })]. *)
Definition variantOptionValue_deleteMany (optionId : string) : M nat :=
  _ <- engine ;;
  fun w =>
    (Return (List.length (values_of optionId (variant_option_values w))),
     set_tables (variant_options w)
                (values_not_of optionId (variant_option_values w)) w).

(** [prisma.variantOption.update({ where: { id }, data: { name, type,
    values: { create } }, include: { values: true } })]: one nested write,
    all or nothing. *)
Definition variantOption_update (optionId name type : string)
    (values : list ValueCreate) : M OptionWithValues.t :=
  _ <- engine ;;
  match validate_values values with
  | None => throw validation_error
  | Some vals =>
      fun w =>
        match find (fun o => String.eqb (VariantOption.id o) optionId)
                   (variant_options w) with
        | None => (Throw record_not_found_error, w)
        | Some old =>
            if existsb (fun o =>
                          negb (String.eqb (VariantOption.id o) optionId)
                          && String.eqb (VariantOption.shop o)
                                        (VariantOption.shop old)
                          && String.eqb (VariantOption.name o) name)
                       (variant_options w)
            then (Throw unique_shop_name_error, w)
            else if has_dup (map (fun '(v, _, _) => v) vals)
                    || existsb
                         (fun '(v, _, _) =>
                            Js.includes
                              (map VariantOptionValue.value
                                   (values_of optionId
                                              (variant_option_values w)))
                              v)
                         vals
            then (Throw unique_option_value_error, w)
            else
              (vids <- fresh_cuids (List.length vals) ;;
               let o := VariantOption.mk optionId name type
                          (VariantOption.position old)
                          (VariantOption.isRequired old)
                          (VariantOption.shop old) in
               let rows := value_rows optionId vids vals in
               fun w =>
                 let os :=
                   map (fun r =>
                          if String.eqb (VariantOption.id r) optionId
                          then o else r)
                       (variant_options w) in
                 let vs := variant_option_values w ++ rows in
                 (Return (OptionWithValues.mk o (values_of optionId vs)),
                  set_tables os vs w)) w
        end
  end.

(** [select: { id: true, name: true }]. *)
Record IdName : Type := mkIdName
  { sel_id : string;
    sel_name : string }.

Definition in_ids_and_shop (idsArray : list string) (shop : string)
    (o : VariantOption.t) : bool :=
  Js.includes idsArray (VariantOption.id o)
  && String.eqb (VariantOption.shop o) shop.

(** [prisma.variantOption.findMany({ where: { id: { in: idsArray }, shop },
    select: { id: true, name: true } })]. *)
Definition variantOption_findMany_in (idsArray : list string) (shop : string)
  : M (list IdName) :=
  _ <- engine ;;
  fun w =>
    (Return
       (map (fun o => mkIdName (VariantOption.id o) (VariantOption.name o))
            (filter (in_ids_and_shop idsArray shop) (variant_options w))),
     w).

(** [prisma.variantOption.deleteMany({ where: { id: { in: idsArray }, shop }
    })]; [onDelete: Cascade] removes the values of every deleted option. *)
Definition variantOption_deleteMany_in (idsArray : list string)
    (shop : string) : M nat :=
  _ <- engine ;;
  fun w =>
    let gone := filter (in_ids_and_shop idsArray shop) (variant_options w) in
    (Return (List.length gone),
     set_tables
       (filter (fun o => negb (in_ids_and_shop idsArray shop o))
               (variant_options w))
       (filter (fun v =>
                  negb (Js.includes (map VariantOption.id gone)
                                    (VariantOptionValue.variantOptionId v)))
               (variant_option_values w))
       w).

End Storage.

(* ================================================================== *)
(** ** app/lib/shop.server.js *)
(* ================================================================== *)

Module ShopServer.
Import Storage.
Local Open Scope storage_scope.

(** The [optionData] argument of [createOptions] and [updateOptions]. *)
Record OptionData : Type := mkOptionData
  { od_name : string;
    od_type : option string;
    od_position : option Z;
    od_isRequired : option bool;
    od_values : option (list ValueInput) }.

(** Property reads on an element of [values]; a string has none of the
    three properties. *)
Definition prop_value (value : ValueInput) : option string :=
  match value with
  | Raw _ => None
  | Obj v _ _ => v
  end.

Definition prop_position (value : ValueInput) : option Z :=
  match value with
  | Raw _ => None
  | Obj _ p _ => p
  end.

Definition prop_isActive (value : ValueInput) : option bool :=
  match value with
  | Raw _ => None
  | Obj _ _ a => a
  end.

(** The element itself, as the right operand of [value.value || value]. *)
Definition itself (value : ValueInput) : ValueField :=
  match value with
  | Raw s => FString s
  | Obj _ _ _ => FObject value
  end.

(** The callback of [values.map((value, index) => ({ ... }))], shared by
    [createOptions] and [updateOptions]. *)
Definition value_create (value : ValueInput) (index : nat) : ValueCreate :=
  mkValueCreate
    (match prop_value value with
     | Some s => if Js.truthy s then FString s else itself value
     | None => itself value
     end)
    (Js.or_else (prop_position value) (Z.of_nat index))
    (match prop_isActive value with
     | Some b => b
     | None => true
     end).

(** [createOptions]. *)
Definition createOptions (shop : string) (optionData : OptionData)
  : M OptionWithValues.t :=
  try_catch
    (let name := od_name optionData in
     let type := Js.default_to (od_type optionData) "text"%string in
     let position := Js.default_to (od_position optionData) 0 in
     let isRequired := Js.default_to (od_isRequired optionData) true in
     let values := Js.default_to (od_values optionData) [] in
     variantOption <-
       variantOption_create name type position isRequired shop
         (Js.mapi value_create values) ;;
     ret variantOption)
    (fun error => throw error).

(** [getOptions]. *)
Definition getOptions (shop : string) : M (list OptionWithValues.t) :=
  try_catch
    (options <- variantOption_findMany_shop shop ;;
     ret options)
    (fun error => throw error).

(** [updateOptions]. *)
Definition updateOptions (optionId : string) (optionData : OptionData)
  : M OptionWithValues.t :=
  try_catch
    (let name := od_name optionData in
     let type := Js.default_to (od_type optionData) "text"%string in
     let values := Js.default_to (od_values optionData) [] in
     _ <- variantOptionValue_deleteMany optionId ;;
     updatedOption <-
       variantOption_update optionId name type
         (Js.mapi value_create values) ;;
     ret updatedOption)
    (fun error => throw error).

(** The [optionIds] argument of [deleteOptions]: one id or an array. *)
Inductive OptionIds : Type :=
| OneId (optionId : string)
| ManyIds (optionIds : list string).

Record DeleteResult : Type := mkDeleteResult
  { success : bool;
    count : nat;
    deletedOptions : list IdName }.

(** [!shop] for a possibly missing shop identifier. *)
Definition shop_missing (shop : option string) : bool :=
  match shop with
  | Some s => negb (Js.truthy s)
  | None => true
  end.

(** The [try] block of [deleteOptions]. *)
Definition deleteOptions_try (optionIds : OptionIds) (shop : option string)
  : M DeleteResult :=
  let idsArray :=
    match optionIds with
    | ManyIds l => l
    | OneId i => [i]
    end in
  if Nat.eqb (List.length idsArray) 0 then
    throw (mkError PlainError "No option IDs provided for deletion")
  else if shop_missing shop then
    throw (mkError PlainError "Shop identifier is required for deletion")
  else
    let shop := Js.default_to shop EmptyString in
    existingOptions <- variantOption_findMany_in idsArray shop ;;
    if negb (Nat.eqb (List.length existingOptions) (List.length idsArray))
    then
      let foundIds := map sel_id existingOptions in
      let notFoundIds :=
        filter (fun id => negb (Js.includes foundIds id)) idsArray in
      throw (mkError PlainError
               ("Some options not found or don't belong to this shop: "
                ++ Js.join ", " notFoundIds))
    else
      deletedResult <- variantOption_deleteMany_in idsArray shop ;;
      ret (mkDeleteResult true deletedResult existingOptions).

(** [deleteOptions]: the [catch] clause wraps whatever was thrown. *)
Definition deleteOptions (optionIds : OptionIds) (shop : option string)
  : M DeleteResult :=
  try_catch
    (deleteOptions_try optionIds shop)
    (fun error =>
       throw (mkError PlainError
                ("Failed to delete options: " ++ message error))).

End ShopServer.



(* ================================================================== *)
(** ** app/components/OptionItem.jsx and app/components/preview.jsx:
       what the views compute from an option *)
(* ================================================================== *)

Module OptionItem.

(** [checked] of the "Select All" checkbox. *)
Definition selectAllChecked (option : UiOption.t) : bool :=
  Js.every UiValue.checked (UiOption.values option).

(** [indeterminate] of the "Select All" checkbox. *)
Definition selectAllIndeterminate (option : UiOption.t) : bool :=
  Js.some UiValue.checked (UiOption.values option)
  && negb (Js.every UiValue.checked (UiOption.values option)).

(** The n of "n of m values active". *)
Definition activeCount (option : UiOption.t) : nat :=
  List.length (filter UiValue.checked (UiOption.values option)).

End OptionItem.

Module Preview.

(** [activeOptions]: the options the storefront preview shows. *)
Definition activeOptions (options : list UiOption.t) : list UiOption.t :=
  filter (fun opt => Js.some UiValue.checked (UiOption.values opt)) options.

End Preview.

(* ================================================================== *)
(** ** The Add Option and Edit Option modals: form state *)
(* ================================================================== *)

(** The four entries of the "Option Type" select. *)
Inductive OptionType : Type :=
| TextInput
| NumberInput
| ImageUpload
| ColorPicker.

Definition type_value (t : OptionType) : string :=
  match t with
  | TextInput => "text"
  | NumberInput => "number"
  | ImageUpload => "image"
  | ColorPicker => "color"
  end.

Module AddOptionModal.

Record State : Type := mkState
  { optionName : string;
    optionValues : list string;
    currentValue : string;
    optionType : string }.

(** The four [useState] initial values; also what a reset writes. *)
Definition initial : State := mkState "" [] "" "text".

(** [addValueToList]. *)
Definition addValueToList (st : State) : State :=
  if Js.truthy (currentValue st)
     && negb (Js.includes (optionValues st) (currentValue st))
  then mkState (optionName st) (optionValues st ++ [currentValue st]) ""
               (optionType st)
  else st.

(** [removeValue]. *)
Definition removeValue (valueToRemove : string) (st : State) : State :=
  mkState (optionName st)
          (filter (fun value => negb (String.eqb value valueToRemove))
                  (optionValues st))
          (currentValue st) (optionType st).

(** [handleSubmit]: what goes to [onSubmit], if anything, and the form
    afterwards. *)
Definition handleSubmit (st : State) : option SubmitData.t * State :=
  if Js.truthy (optionName st)
     && Nat.ltb 0 (List.length (optionValues st))
  then (Some (SubmitData.mk (optionName st) (optionValues st)
                            (optionType st)),
        initial)
  else (None, st).

(** [handleClose]. *)
Definition handleClose (_ : State) : State := initial.

(** What the user can do to the form between two renders. *)
Inductive Event : Type :=
| TypeName (s : string)          (* [onChange={setOptionName}] *)
| TypeValue (s : string)         (* [onChange={setCurrentValue}] *)
| PickType (t : OptionType)      (* [onChange={setOptionType}] *)
| AddValue                       (* the Add button or the Enter key *)
| ClickBadge (value : string)    (* [onClick={() => removeValue(value)}] *)
| Submit
| Close.

Definition step (e : Event) (st : State) : State :=
  match e with
  | TypeName s =>
      mkState s (optionValues st) (currentValue st) (optionType st)
  | TypeValue s =>
      mkState (optionName st) (optionValues st) s (optionType st)
  | PickType t =>
      mkState (optionName st) (optionValues st) (currentValue st)
              (type_value t)
  | AddValue => addValueToList st
  | ClickBadge v => removeValue v st
  | Submit => snd (handleSubmit st)
  | Close => handleClose st
  end.

Definition run (es : list Event) : State :=
  fold_left (fun st e => step e st) es initial.

End AddOptionModal.

Module EditOptionModal.

Record State : Type := mkState
  { editOptionName : string;
    editOptionValues : list string;
    editCurrentValue : string;
    editOptionType : string }.

Definition initial : State := mkState "" [] "" "text".

(** The payload of [onSubmit]. *)
Record EditData : Type := mkEditData
  { optionId : Id;
    optionName : string;
    values : list string;
    optionType : string;
    originalOption : UiOption.t }.

(** The [useEffect] on [editingOption] and [active]. *)
Definition populate (editingOption : option UiOption.t) (active : bool)
    (st : State) : State :=
  match editingOption with
  | Some o =>
      if active
      then mkState (UiOption.name o)
                   (map UiValue.name (UiOption.values o))
                   ""
                   (UiOption.type o)
      else st
  | None => st
  end.

(** [addEditValueToList]. *)
Definition addEditValueToList (st : State) : State :=
  if Js.truthy (editCurrentValue st)
     && negb (Js.includes (editOptionValues st) (editCurrentValue st))
  then mkState (editOptionName st)
               (editOptionValues st ++ [editCurrentValue st]) ""
               (editOptionType st)
  else st.

(** [removeEditValue]. *)
Definition removeEditValue (valueToRemove : string) (st : State) : State :=
  mkState (editOptionName st)
          (filter (fun value => negb (String.eqb value valueToRemove))
                  (editOptionValues st))
          (editCurrentValue st) (editOptionType st).

(** [handleSubmit]: the form is left as it is. *)
Definition handleSubmit (editingOption : option UiOption.t) (st : State)
  : option EditData :=
  match editingOption with
  | Some o =>
      if Js.truthy (editOptionName st)
         && Nat.ltb 0 (List.length (editOptionValues st))
      then Some (mkEditData (UiOption.id o) (editOptionName st)
                            (editOptionValues st) (editOptionType st) o)
      else None
  | None => None
  end.

(** [handleClose]. *)
Definition handleClose (_ : State) : State := initial.

(** What the user can do to the open form; the type select is
    [disabled], so no event writes [editOptionType]. *)
Inductive Event : Type :=
| TypeName (s : string)
| TypeValue (s : string)
| AddValue
| ClickBadge (value : string).

Definition step (e : Event) (st : State) : State :=
  match e with
  | TypeName s =>
      mkState s (editOptionValues st) (editCurrentValue st)
              (editOptionType st)
  | TypeValue s =>
      mkState (editOptionName st) (editOptionValues st) s
              (editOptionType st)
  | AddValue => addEditValueToList st
  | ClickBadge v => removeEditValue v st
  end.

(** The form of a modal opened on [editingOption], after the events. *)
Definition run (editingOption : UiOption.t) (es : list Event) : State :=
  fold_left (fun st e => step e st) es
            (populate (Some editingOption) true initial).

End EditOptionModal.

(* ================================================================== *)
(** ** app/routes/app._index.jsx: loader, action and local handlers *)
(* ================================================================== *)

Module Route.
Import Storage ShopServer.
Local Open Scope storage_scope.

(** The decoded [optionSet] field of an "Add Option" request: any of the
    three properties may be missing. *)
Record OptionSetJson : Type := mkOptionSetJson
  { js_optionName : option string;
    js_values : option (list string);
    js_optionType : option string }.

(** A decoded request, by [actionType].  [authenticate.admin] has
    resolved the shop.  The "Add Option" branch reads its field itself
    ([None]: the field is absent or empty); the other two branches are
    modelled on the payloads the page sends ([prepareOptionForSubmit],
    an id or an array of ids).  [OtherAction] is an action type that no
    branch of the function tests for ("search-products", which asks the
    product catalog, is not modelled). *)
Inductive Request : Type :=
| AddOption (optionSetRaw : option OptionSetJson)
| EditOption (optionId : string) (optionSet : SubmitData.t)
| DeleteOptions (optionIds : OptionIds)
| OtherAction.

(** What the action answers. *)
Inductive Response : Type :=
| OptionSaved (option : OptionWithValues.t)
    (* [json({ success: true, option })] *)
| OptionsDeleted (count : nat) (deletedOptions : list IdName)
    (* [json({ success: true, count, deletedOptions })] *)
| Failed (error : string)
    (* [json({ success: false, error }, { status: 500 })] *)
| NoResponse.
    (* [null] *)

(** [values.map((value, index) => ({ value, position: index, isActive:
    true }))]. *)
Definition form_values (values : list string) : list ValueInput :=
  Js.mapi (fun value index =>
             Obj (Some value) (Some (Z.of_nat index)) (Some true))
          values.

Definition respond_failure (error : JsError) : M Response :=
  ret (Failed (message error)).

(** [action]. *)
Definition action (shop : string) (request : Request) : M Response :=
  try_catch
    (match request with
     | AddOption optionSetRaw =>
         try_catch
           (match optionSetRaw with
            | None =>
                throw (mkError PlainError "No optionSet data provided")
            | Some optionSet =>
                match js_optionName optionSet, js_values optionSet,
                      js_optionType optionSet with
                | Some optionName, Some values, Some optionType =>
                    if Js.truthy optionName && Js.truthy optionType
                    then
                      savedOption <-
                        createOptions shop
                          (mkOptionData optionName (Some optionType) None
                             None (Some (form_values values))) ;;
                      ret (OptionSaved savedOption)
                    else
                      throw (mkError PlainError
                               "Missing required fields: optionName, values, or optionType")
                | _, _, _ =>
                    throw (mkError PlainError
                             "Missing required fields: optionName, values, or optionType")
                end
            end)
           respond_failure
     | EditOption optionId optionSet =>
         try_catch
           (updatedOption <-
              updateOptions optionId
                (mkOptionData (SubmitData.optionName optionSet)
                   (Some (SubmitData.optionType optionSet)) None None
                   (Some (form_values (SubmitData.values optionSet)))) ;;
            ret (OptionSaved updatedOption))
           respond_failure
     | DeleteOptions optionIds =>
         try_catch
           (result <- deleteOptions optionIds (Some shop) ;;
            ret (OptionsDeleted (count result) (deletedOptions result)))
           respond_failure
     | OtherAction => ret NoResponse
     end)
    (fun _ => ret (Failed "An unexpected error occurred")).


(** [handleProductSelection]. *)
Definition handleProductSelection (productId : Id) (prev : list Id)
  : list Id :=
  if existsb (Id_eqb productId) prev
  then filter (fun id => negb (Id_eqb id productId)) prev
  else prev ++ [productId].

End Route.

(* ================================================================== *)
(** * Properties *)
(* ================================================================== *)

(** ** Basic facts about identifiers and the JavaScript idioms *)

Lemma Id_eqb_eq (a b : Id) : Id_eqb a b = true <-> a = b.
Proof.
  destruct a as [s|n], b as [t|m]; simpl;
    rewrite ?String.eqb_eq, ?Z.eqb_eq;
    split; intro H; try discriminate; congruence.
Qed.

Lemma Id_eqb_refl (a : Id) : Id_eqb a a = true.
Proof. now apply Id_eqb_eq. Qed.

Lemma Id_eqb_neq (a b : Id) : Id_eqb a b = false <-> a <> b.
Proof.
  rewrite <- Id_eqb_eq. destruct (Id_eqb a b); split; congruence.
Qed.

Lemma or_else_position (p : option Z) :
  Js.or_else p 0 = Js.default_to p 0.
Proof.
  destruct p as [z|]; simpl; trivial.
  unfold Js.truthy, Js.Truthy_Z.
  destruct (Z.eqb_spec z 0); simpl; congruence.
Qed.

Lemma or_else_true (b : option bool) : Js.or_else b true = true.
Proof. destruct b as [[|]|]; reflexivity. Qed.

(* ------------------------------------------------------------------ *)
(** ** optionUtils.js: [updateOptionObject] *)
(* ------------------------------------------------------------------ *)

Section UpdateOptionObject.

Variable originalOption : UiOption.t.
Variables optionName optionType : string.

Let original_values := UiOption.values originalOption.

(** The lookup [originalOption.values.find((ev) => ev.name === v)]. *)
Definition existing (v : string) : option UiValue.t :=
  find (fun ev => String.eqb (UiValue.name ev) v) original_values.

Lemma existing_some (v : string) (ev : UiValue.t) :
  existing v = Some ev -> In ev original_values /\ UiValue.name ev = v.
Proof.
  intro H. apply find_some in H. now rewrite String.eqb_eq in H.
Qed.

Lemma existing_none (v : string) :
  existing v = None <->
  (forall ev, In ev original_values -> UiValue.name ev <> v).
Proof.
  split.
  - intros H ev Hin Heq.
    apply (find_none _ _ H) in Hin. rewrite <- Heq in Hin.
    now rewrite String.eqb_refl in Hin.
  - intro H. unfold existing.
    induction original_values as [|x xs IH]; simpl; trivial.
    destruct (String.eqb_spec (UiValue.name x) v) as [E|E].
    + exfalso. apply (H x); simpl; auto.
    + apply IH. intros ev Hin. apply H. now right.
Qed.

(** With value names unique inside the original option, the value found
    is the only one of that name. *)
Lemma existing_unique (ev : UiValue.t) :
  NoDup (map UiValue.name original_values) ->
  In ev original_values ->
  existing (UiValue.name ev) = Some ev.
Proof.
  unfold existing. induction original_values as [|x xs IH]; simpl.
  - intros _ [].
  - intros Hnd Hin. inversion Hnd as [|? ? Hx Hxs]; subst.
    destruct (String.eqb_spec (UiValue.name x) (UiValue.name ev)) as [E|E].
    + destruct Hin as [->|Hin]; trivial.
      exfalso. apply Hx. rewrite E. now apply in_map.
    + destruct Hin as [->|Hin]; [congruence|]. now apply IH.
Qed.

Lemma updateOptionObject_value_in (values : list string) (v : UiValue.t) :
  In v (UiOption.values
          (OptionUtils.updateOptionObject originalOption optionName values
                                          optionType)) ->
  In (UiValue.name v) values /\
  UiValue.checked v =
    match existing (UiValue.name v) with
    | Some ev => UiValue.checked ev
    | None => true
    end.
Proof.
  simpl. rewrite in_map_iff. intros [n [<- Hn]]. simpl. now split.
Qed.

End UpdateOptionObject.

(** C5.  [updateOptionObject] (the spec's [fromUiEdit]) returns one value
    per new name, in the order given, so a name that is not in the new list
    is not in the result; a value whose name is found in the original
    option has the checked state of the value found (the only one of that
    name when names are unique in the original option); a value whose name
    no original value has is checked. *)
Theorem updateOptionObject_keeps_checked
    (originalOption : UiOption.t) (optionName : string)
    (values : list string) (optionType : string) :
  map UiValue.name
      (UiOption.values
         (OptionUtils.updateOptionObject originalOption optionName values
                                         optionType)) = values
  /\ (forall v,
        In v (UiOption.values
                (OptionUtils.updateOptionObject originalOption optionName
                                                values optionType)) ->
        (forall ev,
            existing originalOption (UiValue.name v) = Some ev ->
            UiValue.checked v = UiValue.checked ev)
        /\ (NoDup (map UiValue.name (UiOption.values originalOption)) ->
            forall ev,
              In ev (UiOption.values originalOption) ->
              UiValue.name ev = UiValue.name v ->
              UiValue.checked v = UiValue.checked ev)
        /\ ((forall ev,
                In ev (UiOption.values originalOption) ->
                UiValue.name ev <> UiValue.name v) ->
            UiValue.checked v = true))
  /\ (forall n,
        ~ In n values ->
        ~ In n (map UiValue.name
                    (UiOption.values
                       (OptionUtils.updateOptionObject originalOption
                          optionName values optionType)))).
Proof.
  assert (Hnames :
    map UiValue.name
        (UiOption.values
           (OptionUtils.updateOptionObject originalOption optionName values
                                           optionType)) = values).
  { simpl. rewrite map_map. simpl. apply map_id. }
  split; [exact Hnames|]. split.
  - intros v Hv.
    apply updateOptionObject_value_in in Hv. destruct Hv as [_ Hc].
    repeat split.
    + intros ev Hev. now rewrite Hev in Hc.
    + intros Hnd ev Hin Hname.
      pose proof (existing_unique originalOption ev Hnd Hin) as Hex.
      rewrite Hname in Hex. now rewrite Hex in Hc.
    + intro Hnone. apply existing_none in Hnone. now rewrite Hnone in Hc.
  - intros n Hn. now rewrite Hnames.
Qed.

(** The spec's example: original values Red (checked state [c]) and Blue
    (unchecked), edited to Red, Green. *)
Example updateOptionObject_red_green (c : bool) :
  UiOption.values
    (OptionUtils.updateOptionObject
       (UiOption.mk (IdStr "opt1") "Color" "text" None None
          [UiValue.mk "Red" c None; UiValue.mk "Blue" false None])
       "Color" ["Red"; "Green"]%string "text")
  = [UiValue.mk "Red" c None; UiValue.mk "Green" true None].
Proof. reflexivity. Qed.

(* ------------------------------------------------------------------ *)
(** ** useOptions.js: the client state store *)
(* ------------------------------------------------------------------ *)

Section Store.
Import UseOptions.

(** The entries of the store that carry a given id. *)
Definition entries_with (i : Id) (s : Store) : list UiOption.t :=
  filter (fun o => Id_eqb (UiOption.id o) i) s.

(** Ids are unique in the store. *)
Definition unique_ids (s : Store) : Prop := NoDup (map UiOption.id s).

(** [prevOptions.map(opt => opt.id === newOption.id ? newOption : opt)] *)
Definition replace_by_id (n : UiOption.t) (s : Store) : Store :=
  map (fun opt => if Id_eqb (UiOption.id opt) (UiOption.id n) then n else opt)
      s.

Lemma find_id_none (i : Id) (s : Store) :
  find (fun opt => Id_eqb (UiOption.id opt) i) s = None <->
  ~ In i (map UiOption.id s).
Proof.
  induction s as [|o s IH]; simpl.
  - tauto.
  - destruct (Id_eqb (UiOption.id o) i) eqn:E.
    + apply Id_eqb_eq in E. split; [discriminate|]. intro H. tauto.
    + apply Id_eqb_neq in E. rewrite IH. tauto.
Qed.

Lemma entries_with_absent (i : Id) (s : Store) :
  ~ In i (map UiOption.id s) -> entries_with i s = [].
Proof.
  unfold entries_with. induction s as [|o s IH]; simpl; trivial.
  intro H. destruct (Id_eqb (UiOption.id o) i) eqn:E.
  - apply Id_eqb_eq in E. tauto.
  - apply IH. tauto.
Qed.

Lemma entries_with_app (i : Id) (s t : Store) :
  entries_with i (s ++ t) = entries_with i s ++ entries_with i t.
Proof. apply filter_app. Qed.

Lemma replace_by_id_ids (n : UiOption.t) (s : Store) :
  map UiOption.id (replace_by_id n s) = map UiOption.id s.
Proof.
  unfold replace_by_id. rewrite map_map. apply map_ext. intro o.
  destruct (Id_eqb (UiOption.id o) (UiOption.id n)) eqn:E; trivial.
  apply Id_eqb_eq in E. congruence.
Qed.

Lemma replace_by_id_absent (n : UiOption.t) (s : Store) :
  ~ In (UiOption.id n) (map UiOption.id s) -> replace_by_id n s = s.
Proof.
  unfold replace_by_id. induction s as [|o s IH]; simpl; trivial.
  intro H. destruct (Id_eqb (UiOption.id o) (UiOption.id n)) eqn:E.
  - apply Id_eqb_eq in E. tauto.
  - f_equal. apply IH. tauto.
Qed.

Lemma entries_with_replace (n : UiOption.t) (s : Store) :
  unique_ids s ->
  In (UiOption.id n) (map UiOption.id s) ->
  entries_with (UiOption.id n) (replace_by_id n s) = [n].
Proof.
  unfold unique_ids, entries_with, replace_by_id.
  induction s as [|o s IH]; simpl; [intros _ []|].
  intros Hnd Hin. inversion Hnd as [|? ? Ho Hs]; subst.
  destruct (Id_eqb (UiOption.id o) (UiOption.id n)) eqn:E; simpl.
  - rewrite Id_eqb_refl. f_equal.
    apply Id_eqb_eq in E. rewrite E in Ho.
    fold (replace_by_id n s). rewrite (replace_by_id_absent n s Ho).
    now apply entries_with_absent.
  - rewrite E. apply IH; trivial.
    apply Id_eqb_neq in E. destruct Hin; congruence.
Qed.

(** What [addOption] does with a valid option object: an upsert by id. *)
Lemma addOption_upsert (n : UiOption.t) (s : Store) :
  Js.truthy (UiOption.id n) = true ->
  (~ In (UiOption.id n) (map UiOption.id s) ->
   addOption (Some n) s = s ++ [n])
  /\ (In (UiOption.id n) (map UiOption.id s) ->
      addOption (Some n) s = replace_by_id n s).
Proof.
  intro Ht. unfold addOption. rewrite Ht. simpl.
  destruct (find _ s) eqn:F.
  - split; intro H; trivial.
    apply find_id_none in H. congruence.
  - split; intro H; trivial.
    apply find_id_none in F. tauto.
Qed.

Lemma addOption_unique_ids (n : option UiOption.t) (s : Store) :
  unique_ids s -> unique_ids (addOption n s).
Proof.
  intro Hs. destruct n as [n|]; trivial.
  unfold addOption.
  destruct (negb (Js.truthy (UiOption.id n))); trivial.
  destruct (find _ s) eqn:F.
  - unfold unique_ids. fold (replace_by_id n s).
    now rewrite replace_by_id_ids.
  - apply find_id_none in F. unfold unique_ids.
    rewrite map_app. simpl.
    apply NoDup_app; trivial.
    + constructor; [intros []|constructor].
    + intros x Hx [<-|[]]. tauto.
Qed.

Lemma addOption_has_id (n : UiOption.t) (s : Store) :
  Js.truthy (UiOption.id n) = true ->
  In (UiOption.id n) (map UiOption.id (addOption (Some n) s)).
Proof.
  intro Ht. unfold addOption. rewrite Ht. simpl.
  destruct (find _ s) eqn:F.
  - fold (replace_by_id n s). rewrite replace_by_id_ids.
    apply find_some in F. destruct F as [Hin E].
    apply Id_eqb_eq in E. rewrite <- E. now apply in_map.
  - rewrite map_app. apply in_or_app. right. now left.
Qed.

End Store.

(** C6.  For a store whose ids are unique and option objects that carry an
    id (a truthy one: the guard of [addOption] ignores any other call),
    [addOption] appends when the id is absent and replaces the entry of
    that id when it is present; after two calls with options of the same
    id the store has exactly one entry with that id, the second argument;
    and repeating a call changes nothing. *)
Theorem addOption_same_id_twice
    (s : UseOptions.Store) (first second : UiOption.t) :
  unique_ids s ->
  Js.truthy (UiOption.id first) = true ->
  UiOption.id second = UiOption.id first ->
  entries_with (UiOption.id first)
    (UseOptions.addOption (Some second) (UseOptions.addOption (Some first) s))
  = [second]
  /\ UseOptions.addOption (Some second)
       (UseOptions.addOption (Some second)
          (UseOptions.addOption (Some first) s))
     = UseOptions.addOption (Some second)
         (UseOptions.addOption (Some first) s)
  /\ (~ In (UiOption.id first) (map UiOption.id s) ->
      UseOptions.addOption (Some first) s = s ++ [first])
  /\ (In (UiOption.id first) (map UiOption.id s) ->
      UseOptions.addOption (Some first) s = replace_by_id first s).
Proof.
  intros Hs Ht Hid.
  assert (Ht2 : Js.truthy (UiOption.id second) = true) by now rewrite Hid.
  pose proof (addOption_unique_ids (Some first) s Hs) as Hs1.
  pose proof (addOption_has_id first s Ht) as Hin1.
  rewrite <- Hid in Hin1.
  destruct (addOption_upsert second
              (UseOptions.addOption (Some first) s) Ht2) as [_ Hrep].
  specialize (Hrep Hin1).
  split; [|split; [|exact (addOption_upsert first s Ht)]].
  - rewrite Hrep, <- Hid. now apply entries_with_replace.
  - rewrite Hrep.
    destruct (addOption_upsert second
                (replace_by_id second (UseOptions.addOption (Some first) s))
                Ht2) as [_ Hrep2].
    rewrite Hrep2 by now rewrite replace_by_id_ids.
    unfold replace_by_id. rewrite map_map. apply map_ext. intro o.
    destruct (Id_eqb (UiOption.id o) (UiOption.id second)) eqn:E.
    + now rewrite Id_eqb_refl.
    + now rewrite E.
Qed.

Lemma addOption_same_id_twice_witness :
  let s := [UiOption.mk (IdStr "a") "Size" "text" None None []] in
  let first := UiOption.mk (IdNum 17) "Color" "text" None None
                 [UiValue.mk "Red" true None] in
  let second := UiOption.mk (IdNum 17) "Colour" "color" None None
                  [UiValue.mk "Blue" true None] in
  UseOptions.addOption (Some second) (UseOptions.addOption (Some first) s)
    = s ++ [second]
  /\ entries_with (IdNum 17)
       (UseOptions.addOption (Some second)
          (UseOptions.addOption (Some first) s)) = [second].
Proof.
  intros s first second. split; [reflexivity|].
  refine (proj1 (addOption_same_id_twice s first second _ _ _)).
  - unfold unique_ids. simpl. constructor; [intros []|constructor].
  - reflexivity.
  - reflexivity.
Defined.

(* ------------------------------------------------------------------ *)
(** ** useOptions.js: [handleToggleAllValues] *)
(* ------------------------------------------------------------------ *)

Section ToggleAll.
Import UseOptions.

(** One option with every value set to [c], all else kept. *)
Definition set_all (c : bool) (o : UiOption.t) : UiOption.t :=
  UiOption.with_values (map (UiValue.with_checked c) (UiOption.values o)) o.

Definition all_checked (o : UiOption.t) : bool :=
  Js.every UiValue.checked (UiOption.values o).

Lemma set_all_checked (c : bool) (o : UiOption.t) :
  Forall (fun v => UiValue.checked v = c) (UiOption.values (set_all c o)).
Proof.
  simpl. apply Forall_forall. intros v Hv.
  apply in_map_iff in Hv. now destruct Hv as [x [<- _]].
Qed.

Lemma set_all_frame (c : bool) (o : UiOption.t) :
  UiOption.id (set_all c o) = UiOption.id o
  /\ UiOption.name (set_all c o) = UiOption.name o
  /\ UiOption.type (set_all c o) = UiOption.type o
  /\ UiOption.position (set_all c o) = UiOption.position o
  /\ UiOption.isRequired (set_all c o) = UiOption.isRequired o
  /\ map UiValue.name (UiOption.values (set_all c o))
     = map UiValue.name (UiOption.values o)
  /\ map UiValue.position (UiOption.values (set_all c o))
     = map UiValue.position (UiOption.values o).
Proof.
  repeat split; simpl; trivial; rewrite map_map; reflexivity.
Qed.

Lemma all_checked_set_all (c : bool) (o : UiOption.t) :
  UiOption.values o <> [] -> all_checked (set_all c o) = c.
Proof.
  unfold all_checked, Js.every. simpl.
  destruct (UiOption.values o) as [|v vs]; [congruence|intros _].
  destruct c; simpl; trivial.
  induction vs as [|x xs IH]; simpl; trivial.
Qed.

Lemma all_checked_true_iff (o : UiOption.t) :
  all_checked o = true <->
  Forall (fun v => UiValue.checked v = true) (UiOption.values o).
Proof.
  unfold all_checked, Js.every. rewrite forallb_forall, Forall_forall.
  tauto.
Qed.

Lemma handleToggleAllValues_nth (optionId : Id) (s : Store) (i : nat) :
  nth_error (handleToggleAllValues optionId s) i =
  option_map
    (fun o => if Id_eqb (UiOption.id o) optionId
              then set_all (negb (all_checked o)) o else o)
    (nth_error s i).
Proof.
  unfold handleToggleAllValues. now rewrite nth_error_map.
Qed.

End ToggleAll.

(** C7.  [handleToggleAllValues optionId] keeps the length and order of the
    store; an entry with another id is unchanged; an entry with that id
    keeps its scalar fields and the names and positions of its values, and
    all its values become unchecked when all were checked, checked
    otherwise. *)
Theorem handleToggleAllValues_select_all
    (optionId : Id) (s : UseOptions.Store) :
  List.length (UseOptions.handleToggleAllValues optionId s) = List.length s
  /\ forall (i : nat) (o : UiOption.t),
       nth_error s i = Some o ->
       (UiOption.id o <> optionId ->
        nth_error (UseOptions.handleToggleAllValues optionId s) i = Some o)
       /\ (UiOption.id o = optionId ->
           exists o',
             nth_error (UseOptions.handleToggleAllValues optionId s) i
               = Some o'
             /\ UiOption.id o' = UiOption.id o
             /\ UiOption.name o' = UiOption.name o
             /\ UiOption.type o' = UiOption.type o
             /\ UiOption.position o' = UiOption.position o
             /\ UiOption.isRequired o' = UiOption.isRequired o
             /\ map UiValue.name (UiOption.values o')
                = map UiValue.name (UiOption.values o)
             /\ map UiValue.position (UiOption.values o')
                = map UiValue.position (UiOption.values o)
             /\ (Forall (fun v => UiValue.checked v = true)
                        (UiOption.values o) ->
                 Forall (fun v => UiValue.checked v = false)
                        (UiOption.values o'))
             /\ (~ Forall (fun v => UiValue.checked v = true)
                          (UiOption.values o) ->
                 Forall (fun v => UiValue.checked v = true)
                        (UiOption.values o'))).
Proof.
  split.
  - unfold UseOptions.handleToggleAllValues. apply length_map.
  - intros i o Hi. rewrite handleToggleAllValues_nth, Hi. simpl. split.
    + intro Hne. apply Id_eqb_neq in Hne. now rewrite Hne.
    + intro He. apply Id_eqb_eq in He. rewrite He.
      exists (set_all (negb (all_checked o)) o).
      split; [reflexivity|].
      destruct (set_all_frame (negb (all_checked o)) o)
        as (H1 & H2 & H3 & H4 & H5 & H6 & H7).
      repeat (split; [assumption|]).
      split; intro Hall.
      * apply all_checked_true_iff in Hall. rewrite Hall.
        apply set_all_checked.
      * rewrite <- all_checked_true_iff in Hall.
        apply not_true_is_false in Hall. rewrite Hall.
        apply set_all_checked.
Qed.

(** The spec's example, for any option with at least one unchecked value:
    one call checks every value, a second call unchecks every value. *)
Lemma handleToggleAllValues_twice (optionId : Id) (o : UiOption.t) :
  UiOption.id o = optionId ->
  all_checked o = false ->
  UseOptions.handleToggleAllValues optionId [o] = [set_all true o]
  /\ UseOptions.handleToggleAllValues optionId
       (UseOptions.handleToggleAllValues optionId [o])
     = [set_all false o].
Proof.
  intros Hid Hall.
  assert (Hne : UiOption.values o <> []).
  { intro E. unfold all_checked in Hall. rewrite E in Hall. discriminate. }
  assert (E : Id_eqb (UiOption.id o) optionId = true)
    by now apply Id_eqb_eq.
  assert (H1 : UseOptions.handleToggleAllValues optionId [o]
               = [set_all true o]).
  { unfold UseOptions.handleToggleAllValues. simpl. rewrite E.
    fold (all_checked o). rewrite Hall. reflexivity. }
  split; [exact H1|]. rewrite H1.
  unfold UseOptions.handleToggleAllValues.
  cbn [map]. change (UiOption.id (set_all true o)) with (UiOption.id o).
  rewrite E. fold (all_checked (set_all true o)).
  rewrite (all_checked_set_all true o Hne).
  unfold set_all, UiOption.with_values. simpl. do 2 f_equal.
  rewrite map_map. reflexivity.
Qed.

Example handleToggleAllValues_three_of_five :
  let v n c := UiValue.mk n c (Some 0) in
  let o cs := UiOption.mk (IdStr "o1") "Size" "text" (Some 0) (Some true)
                (map (fun '(n, c) => v n c)
                     (combine ["S"; "M"; "L"; "XL"; "XXL"]%string cs)) in
  let other := UiOption.mk (IdStr "o2") "Color" "color" (Some 1) (Some true)
                 [v "Red"%string false] in
  UseOptions.handleToggleAllValues (IdStr "o1")
    [o [true; false; true; true; false]; other]
  = [o [true; true; true; true; true]; other]
  /\ UseOptions.handleToggleAllValues (IdStr "o1")
       (UseOptions.handleToggleAllValues (IdStr "o1")
          [o [true; false; true; true; false]; other])
     = [o [false; false; false; false; false]; other].
Proof. split; reflexivity. Qed.

(* ------------------------------------------------------------------ *)
(** ** Server-to-UI transformations *)
(* ------------------------------------------------------------------ *)

Section ToUiShape.

(** What both transformations do to a value and to the scalar fields of an
    option. *)
Definition value_renamed (lv : LoadedValue.t) (uv : UiValue.t) : Prop :=
  UiValue.name uv = LoadedValue.value lv
  /\ UiValue.checked uv = LoadedValue.isActive lv.

Definition option_renamed (lo : LoadedOption.t) (uo : UiOption.t) : Prop :=
  UiOption.id uo = IdStr (LoadedOption.id lo)
  /\ UiOption.name uo = LoadedOption.name lo
  /\ (LoadedOption.type lo = None -> UiOption.type uo = "text"%string)
  /\ (forall t, LoadedOption.type lo = Some t -> t <> ""%string ->
                UiOption.type uo = t)
  /\ Forall2 value_renamed (LoadedOption.values lo) (UiOption.values uo).

(** The position carried by the result of [transformOptions]. *)
Definition value_positioned (lv : LoadedValue.t) (uv : UiValue.t) : Prop :=
  (LoadedValue.position lv = None -> UiValue.position uv = Some 0)
  /\ (forall p, LoadedValue.position lv = Some p ->
                UiValue.position uv = Some p).

Definition option_positioned (lo : LoadedOption.t) (uo : UiOption.t)
  : Prop :=
  (LoadedOption.position lo = None -> UiOption.position uo = Some 0)
  /\ (forall p, LoadedOption.position lo = Some p ->
                UiOption.position uo = Some p)
  /\ Forall2 value_positioned (LoadedOption.values lo) (UiOption.values uo).

(** No position property anywhere in a UI option. *)
Definition position_free (uo : UiOption.t) : Prop :=
  UiOption.position uo = None
  /\ Forall (fun uv => UiValue.position uv = None) (UiOption.values uo).

Lemma Forall2_map_r {A B : Type} (R : A -> B -> Prop) (f : A -> B)
    (l : list A) :
  (forall a, In a l -> R a (f a)) -> Forall2 R l (map f l).
Proof.
  induction l as [|a l IH]; simpl; intro H; constructor.
  - apply H. now left.
  - apply IH. intros b Hb. apply H. now right.
Qed.

Lemma or_else_type_text (t : option string) :
  (t = None -> Js.or_else t "text"%string = "text"%string)
  /\ (forall s, t = Some s -> s <> ""%string -> Js.or_else t "text"%string = s).
Proof.
  split.
  - now intros ->.
  - intros s -> Hs. simpl. unfold Js.truthy, Js.Truthy_string.
    destruct (String.eqb_spec s ""); simpl; congruence.
Qed.

Lemma transformOptions_renamed (l : list LoadedOption.t) :
  Forall2 option_renamed l (UseOptions.transformOptions l).
Proof.
  apply Forall2_map_r. intros lo _. unfold option_renamed. simpl.
  destruct (or_else_type_text (LoadedOption.type lo)) as [Ht1 Ht2].
  repeat split; trivial.
  apply Forall2_map_r. intros lv _. now split.
Qed.

Lemma transformOptions_positioned (l : list LoadedOption.t) :
  Forall2 option_positioned l (UseOptions.transformOptions l).
Proof.
  apply Forall2_map_r. intros lo _. unfold option_positioned. simpl.
  rewrite or_else_position. repeat split.
  - now intros ->.
  - now intros p ->.
  - apply Forall2_map_r. intros lv _. unfold value_positioned. simpl.
    rewrite or_else_position. split; [now intros ->|now intros p ->].
Qed.

Lemma transformLoadedOptions_renamed (l : list LoadedOption.t) :
  Forall2 option_renamed l (OptionUtils.transformLoadedOptions l).
Proof.
  apply Forall2_map_r. intros lo _. unfold option_renamed. simpl.
  destruct (or_else_type_text (LoadedOption.type lo)) as [Ht1 Ht2].
  repeat split; trivial.
  apply Forall2_map_r. intros lv _. now split.
Qed.

Lemma transformLoadedOptions_position_free (l : list LoadedOption.t) :
  Forall position_free (OptionUtils.transformLoadedOptions l).
Proof.
  unfold OptionUtils.transformLoadedOptions. apply Forall_map.
  apply Forall_forall. intros lo _. split; simpl; trivial.
  apply Forall_map. apply Forall_forall. intros lv _. reflexivity.
Qed.

End ToUiShape.

(** C8, as the code has it.  Both server-to-UI mappings rename [value] to
    [name] and [isActive] to [checked] and default a missing type to
    "text".  [transformOptions] (the store's mapping) also carries a
    position on every option and value, 0 when the persisted one is
    missing; [transformLoadedOptions] carries no position at all. *)
Theorem toUiShape_renames_and_positions (l : list LoadedOption.t) :
  Forall2 option_renamed l (UseOptions.transformOptions l)
  /\ Forall2 option_positioned l (UseOptions.transformOptions l)
  /\ Forall2 option_renamed l (OptionUtils.transformLoadedOptions l)
  /\ Forall position_free (OptionUtils.transformLoadedOptions l).
Proof.
  split; [apply transformOptions_renamed|].
  split; [apply transformOptions_positioned|].
  split; [apply transformLoadedOptions_renamed|].
  apply transformLoadedOptions_position_free.
Qed.

(** C8 as stated fails for [transformLoadedOptions]: an option persisted
    with position 3 and a value with position 1 come out without any
    position property. *)
Lemma transformLoadedOptions_drops_position :
  let lo := LoadedOption.mk "o1" "Color" (Some "color"%string) (Some 3)
              (Some true) [LoadedValue.mk "Red" true (Some 1)] in
  map UiOption.position (OptionUtils.transformLoadedOptions [lo]) = [None]
  /\ map (fun o => map UiValue.position (UiOption.values o))
         (OptionUtils.transformLoadedOptions [lo]) = [[None]]
  /\ map UiOption.position (UseOptions.transformOptions [lo]) = [Some 3].
Proof. repeat split. Qed.

(** C9.  Whatever the persisted [isRequired], every option produced by
    [transformOptions] has [isRequired = true]; hence so has every option
    of the store right after a sync from the server. *)
Theorem transformOptions_isRequired_true
    (serverOptions : list LoadedOption.t) (options : UseOptions.Store) :
  Forall (fun o => UiOption.isRequired o = Some true)
         (UseOptions.transformOptions serverOptions)
  /\ Forall (fun o => UiOption.isRequired o = Some true)
            (UseOptions.syncFromServer (Some serverOptions) options).
Proof.
  assert (H : Forall (fun o => UiOption.isRequired o = Some true)
                     (UseOptions.transformOptions serverOptions)).
  { unfold UseOptions.transformOptions. apply Forall_map.
    apply Forall_forall. intros lo _. simpl. now rewrite or_else_true. }
  split; exact H.
Qed.

Example transformOptions_isRequired_false_lost :
  map UiOption.isRequired
      (UseOptions.transformOptions
         [LoadedOption.mk "o1" "Engraving" (Some "text"%string) (Some 0)
            (Some false) []])
  = [Some true].
Proof. reflexivity. Qed.

(* ------------------------------------------------------------------ *)
(** ** Storage: ordering and the engine *)
(* ------------------------------------------------------------------ *)

Section OrderBy.
Import Storage.

Context {A : Type} (key : A -> Z).

Definition ascending : list A -> Prop :=
  StronglySorted (fun a b => key a <= key b).

Lemma insert_by_perm (x : A) (l : list A) :
  Permutation (x :: l) (insert_by key x l).
Proof.
  induction l as [|y ys IH]; simpl; [reflexivity|].
  destruct (key x <=? key y); [reflexivity|].
  rewrite perm_swap. now constructor.
Qed.

Lemma order_by_perm (l : list A) : Permutation l (order_by key l).
Proof.
  induction l as [|x xs IH]; simpl; [constructor|].
  rewrite <- insert_by_perm. now constructor.
Qed.

Lemma insert_by_ascending (x : A) (l : list A) :
  ascending l -> ascending (insert_by key x l).
Proof.
  unfold ascending.
  induction l as [|y ys IH]; simpl; intro Hs.
  - repeat constructor.
  - apply StronglySorted_inv in Hs. destruct Hs as [Hys Hy].
    destruct (Z.leb_spec (key x) (key y)) as [Hle|Hgt].
    + constructor; [now constructor|].
      constructor; trivial.
      eapply Forall_impl; [|exact Hy]. simpl. intros a Ha. lia.
    + constructor; [now apply IH|].
      rewrite <- insert_by_perm. constructor; trivial. lia.
Qed.

Lemma order_by_ascending (l : list A) : ascending (order_by key l).
Proof.
  induction l as [|x xs IH]; simpl.
  - constructor.
  - now apply insert_by_ascending.
Qed.

End OrderBy.

Section Engine.
Import Storage.

(** The next storage call goes through. *)
Definition next_call_ok (w : World) : Prop := hd None (faults w) = None.

Lemma engine_ok (w : World) :
  next_call_ok w -> engine w = (Return tt, pop_fault w).
Proof. unfold next_call_ok, engine. now intros ->. Qed.

Lemma engine_fault (w : World) (msg : string) :
  hd None (faults w) = Some msg ->
  engine w = (Throw (mkError PrismaClientError msg), pop_fault w).
Proof. unfold engine. now intros ->. Qed.

End Engine.

(* ------------------------------------------------------------------ *)
(** ** shop.server.js: [getOptions] *)
(* ------------------------------------------------------------------ *)

(** C4.  When the query goes through, [getOptions shop] returns, for any
    storage order of the two tables, exactly the option rows of that shop
    (a permutation of them) in ascending position, each with exactly the
    values it owns in ascending position, and leaves both tables as they
    were. *)
Theorem getOptions_sorted (shop : string) (w : Storage.World) :
  next_call_ok w ->
  exists options,
    ShopServer.getOptions shop w = (Storage.Return options, Storage.pop_fault w)
    /\ Permutation
         (filter (fun o => String.eqb (VariantOption.shop o) shop)
                 (Storage.variant_options w))
         (map OptionWithValues.row options)
    /\ ascending VariantOption.position (map OptionWithValues.row options)
    /\ Forall
         (fun o =>
            Permutation
              (Storage.values_of (VariantOption.id (OptionWithValues.row o))
                                 (Storage.variant_option_values w))
              (OptionWithValues.values o)
            /\ ascending VariantOptionValue.position
                         (OptionWithValues.values o))
         options.
Proof.
  intro Hok.
  unfold ShopServer.getOptions, Storage.try_catch,
    Storage.variantOption_findMany_shop, Storage.bind.
  rewrite (engine_ok w Hok). simpl.
  eexists. split; [reflexivity|].
  rewrite map_map. simpl. rewrite map_id.
  split; [apply order_by_perm|].
  split; [apply order_by_ascending|].
  apply Forall_map, Forall_forall. intros o _. simpl.
  split; [apply order_by_perm|apply order_by_ascending].
Qed.

Lemma getOptions_sorted_witness :
  exists options,
    ShopServer.getOptions "shopX"
      (Storage.mkWorld
         [VariantOption.mk "b" "Size" "text" 2 true "shopX";
          VariantOption.mk "z" "Gift" "text" 0 true "shopY";
          VariantOption.mk "a" "Color" "color" 1 true "shopX"]
         [VariantOptionValue.mk "v1" "Red" 1 true "a";
          VariantOptionValue.mk "v2" "L" 0 true "b";
          VariantOptionValue.mk "v3" "Blue" 0 false "a"]
         0 [])
    = (Storage.Return options,
       Storage.mkWorld
         [VariantOption.mk "b" "Size" "text" 2 true "shopX";
          VariantOption.mk "z" "Gift" "text" 0 true "shopY";
          VariantOption.mk "a" "Color" "color" 1 true "shopX"]
         [VariantOptionValue.mk "v1" "Red" 1 true "a";
          VariantOptionValue.mk "v2" "L" 0 true "b";
          VariantOptionValue.mk "v3" "Blue" 0 false "a"]
         0 [])
    /\ ascending VariantOption.position (map OptionWithValues.row options).
Proof.
  destruct (getOptions_sorted "shopX"
              (Storage.mkWorld
                 [VariantOption.mk "b" "Size" "text" 2 true "shopX";
                  VariantOption.mk "z" "Gift" "text" 0 true "shopY";
                  VariantOption.mk "a" "Color" "color" 1 true "shopX"]
                 [VariantOptionValue.mk "v1" "Red" 1 true "a";
                  VariantOptionValue.mk "v2" "L" 0 true "b";
                  VariantOptionValue.mk "v3" "Blue" 0 false "a"]
                 0 [])
              eq_refl) as [options [H1 [_ [H3 _]]]].
  exists options. split; [exact H1|exact H3].
Defined.

Example getOptions_any_insertion_order :
  fst (ShopServer.getOptions "shopX"
         (Storage.mkWorld
            [VariantOption.mk "b" "Size" "text" 2 true "shopX";
             VariantOption.mk "z" "Gift" "text" 0 true "shopY";
             VariantOption.mk "a" "Color" "color" 1 true "shopX"]
            [VariantOptionValue.mk "v1" "Red" 1 true "a";
             VariantOptionValue.mk "v2" "L" 0 true "b";
             VariantOptionValue.mk "v3" "Blue" 0 false "a"]
            0 []))
  = Storage.Return
      [OptionWithValues.mk
         (VariantOption.mk "a" "Color" "color" 1 true "shopX")
         [VariantOptionValue.mk "v3" "Blue" 0 false "a";
          VariantOptionValue.mk "v1" "Red" 1 true "a"];
       OptionWithValues.mk
         (VariantOption.mk "b" "Size" "text" 2 true "shopX")
         [VariantOptionValue.mk "v2" "L" 0 true "b"]].
Proof. reflexivity. Qed.

(* ------------------------------------------------------------------ *)
(** ** shop.server.js: the value defaults of [createOptions] *)
(* ------------------------------------------------------------------ *)

Section ValueDefaults.
Import Storage ShopServer.

(** A raw string is stored as it is, at its index, active. *)
Lemma value_create_raw (s : string) (index : nat) :
  value_create (Raw s) index = mkValueCreate (FString s) (Z.of_nat index) true.
Proof. reflexivity. Qed.

(** A missing [position] is the index, a missing [isActive] is true. *)
Lemma value_create_missing (v : option string) (p : option Z)
    (a : option bool) (index : nat) :
  vc_position (value_create (Obj v None a) index) = Z.of_nat index
  /\ vc_isActive (value_create (Obj v p None) index) = true.
Proof. split; reflexivity. Qed.

(** A given [isActive] is stored; a given [position] is stored when it is
    not 0. *)
Lemma value_create_given (v : option string) (p : Z) (a : bool)
    (index : nat) :
  vc_isActive (value_create (Obj v (Some p) (Some a)) index) = a
  /\ (p <> 0 -> vc_position (value_create (Obj v (Some p) (Some a)) index) = p).
Proof.
  split; [reflexivity|]. intro Hp. simpl.
  unfold Js.truthy, Js.Truthy_Z.
  destruct (Z.eqb_spec p 0); simpl; congruence.
Qed.

(** A given [position] of 0 is falsy for [value.position || index]: the
    index is stored in its place. *)
Lemma value_create_position_zero (v : option string) (a : option bool)
    (index : nat) :
  vc_position (value_create (Obj v (Some 0) a) index) = Z.of_nat index.
Proof. reflexivity. Qed.

End ValueDefaults.

(** C3, the part that holds: on an empty store, creating an option with
    values Red, Blue and nothing else given stores two values, at positions
    0 and 1, both active. *)
Example createOptions_red_blue :
  ShopServer.createOptions "shopX"
    (ShopServer.mkOptionData "Color" None None None
       (Some [Storage.Raw "Red"; Storage.Raw "Blue"]))
    (Storage.mkWorld [] [] 0 [])
  = (Storage.Return
       (OptionWithValues.mk
          (VariantOption.mk "c0" "Color" "text" 0 true "shopX")
          [VariantOptionValue.mk "c1" "Red" 0 true "c0";
           VariantOptionValue.mk "c2" "Blue" 1 true "c0"]),
     Storage.mkWorld
       [VariantOption.mk "c0" "Color" "text" 0 true "shopX"]
       [VariantOptionValue.mk "c1" "Red" 0 true "c0";
        VariantOptionValue.mk "c2" "Blue" 1 true "c0"]
       3 []).
Proof. reflexivity. Qed.

(** C3, where the code departs from it: the second element supplies the
    explicit position 0 and is stored at position 1, its index. *)
Theorem createOptions_explicit_position_zero :
  ShopServer.createOptions "shopX"
    (ShopServer.mkOptionData "Color" None None None
       (Some [Storage.Obj (Some "Red"%string) (Some 1) (Some true);
              Storage.Obj (Some "Blue"%string) (Some 0) (Some true)]))
    (Storage.mkWorld [] [] 0 [])
  = (Storage.Return
       (OptionWithValues.mk
          (VariantOption.mk "c0" "Color" "text" 0 true "shopX")
          [VariantOptionValue.mk "c1" "Red" 1 true "c0";
           VariantOptionValue.mk "c2" "Blue" 1 true "c0"]),
     Storage.mkWorld
       [VariantOption.mk "c0" "Color" "text" 0 true "shopX"]
       [VariantOptionValue.mk "c1" "Red" 1 true "c0";
        VariantOptionValue.mk "c2" "Blue" 1 true "c0"]
       3 []).
Proof. reflexivity. Qed.

(* ------------------------------------------------------------------ *)
(** ** shop.server.js: [updateOptions] *)
(* ------------------------------------------------------------------ *)

Section UpdateOptions.
Import Storage ShopServer.

(** The three columns a nested create writes from its argument. *)
Definition written (c : ValueCreate) : ValueField * Z * bool :=
  (vc_value c, vc_position c, vc_isActive c).

Definition stored (v : VariantOptionValue.t) : ValueField * Z * bool :=
  (FString (VariantOptionValue.value v), VariantOptionValue.position v,
   VariantOptionValue.isActive v).

Definition owned_by (optionId : string) (v : VariantOptionValue.t) : Prop :=
  VariantOptionValue.variantOptionId v = optionId.

Lemma values_of_not_of (optionId : string) (vs : list VariantOptionValue.t) :
  values_of optionId (values_not_of optionId vs) = [].
Proof.
  unfold values_of, values_not_of.
  induction vs as [|v vs IH]; simpl; trivial.
  destruct (String.eqb (VariantOptionValue.variantOptionId v) optionId)
    eqn:E; simpl; trivial.
  now rewrite E.
Qed.

Lemma values_of_owned (optionId : string) (vs : list VariantOptionValue.t) :
  Forall (owned_by optionId) vs -> values_of optionId vs = vs.
Proof.
  unfold values_of. induction 1 as [|v vs Hv _ IH]; simpl; trivial.
  unfold owned_by in Hv. rewrite Hv, String.eqb_refl. now f_equal.
Qed.

Lemma value_rows_owned (optionId : string) (ids : list string)
    (vals : list (string * Z * bool)) :
  Forall (owned_by optionId) (value_rows optionId ids vals).
Proof.
  unfold value_rows. apply Forall_map, Forall_forall.
  intros [vid [[v p] a]] _. reflexivity.
Qed.

Lemma value_rows_stored (optionId : string) (ids : list string)
    (vals : list (string * Z * bool)) :
  List.length ids = List.length vals ->
  map stored (value_rows optionId ids vals)
  = map (fun '(s, p, a) => (FString s, p, a)) vals.
Proof.
  unfold value_rows. revert vals.
  induction ids as [|i ids IH]; intros [|[[s p] a] vals] Hlen;
    simpl in *; try discriminate; trivial.
  f_equal. apply IH. congruence.
Qed.

Lemma validate_values_written (l : list ValueCreate)
    (vals : list (string * Z * bool)) :
  validate_values l = Some vals ->
  map (fun '(s, p, a) => (FString s, p, a)) vals = map written l.
Proof.
  revert vals. induction l as [|c l IH]; simpl; intros vals H.
  - now inversion H.
  - destruct (vc_value c) as [s|o] eqn:Ec; [|discriminate].
    destruct (validate_values l) as [rest|]; [|discriminate].
    inversion H; subst. simpl. unfold written at 1. rewrite Ec.
    f_equal. now apply IH.
Qed.

(** The first storage call of [updateOptions]. *)
Lemma variantOptionValue_deleteMany_eq (optionId : string) (w : World) :
  variantOptionValue_deleteMany optionId w =
  match hd None (faults w) with
  | Some msg => (Throw (mkError PrismaClientError msg), pop_fault w)
  | None =>
      (Return (List.length (values_of optionId (variant_option_values w))),
       set_tables (variant_options w)
                  (values_not_of optionId (variant_option_values w))
                  (pop_fault w))
  end.
Proof.
  unfold variantOptionValue_deleteMany, bind, engine.
  now destruct (hd None (faults w)).
Qed.

(** A failed [update] writes nothing. *)
Lemma variantOption_update_throw (optionId name type : string)
    (values : list ValueCreate) (w w' : World) (e : JsError) :
  variantOption_update optionId name type values w = (Throw e, w') ->
  variant_options w' = variant_options w
  /\ variant_option_values w' = variant_option_values w.
Proof.
  unfold variantOption_update, bind, engine.
  destruct (hd None (faults w)) as [msg|].
  - intro H. inversion H; subst. now split.
  - destruct (validate_values values) as [vals|].
    + destruct (find _ (variant_options (pop_fault w))) as [old|].
      * destruct (existsb _ (variant_options (pop_fault w))).
        { intro H. inversion H; subst. now split. }
        destruct (has_dup _ || existsb _ vals)%bool.
        { intro H. inversion H; subst. now split. }
        unfold fresh_cuids. simpl. discriminate.
      * intro H. inversion H; subst. now split.
    + unfold throw. intro H. inversion H; subst. now split.
Qed.

(** A successful [update] rewrites the option row and appends one value
    row per element of its argument. *)
Lemma variantOption_update_return (optionId name type : string)
    (values : list ValueCreate) (w w' : World) (u : OptionWithValues.t) :
  variantOption_update optionId name type values w = (Return u, w') ->
  exists old rows,
    next_call_ok w
    /\ find (fun o => String.eqb (VariantOption.id o) optionId)
            (variant_options w) = Some old
    /\ OptionWithValues.row u
       = VariantOption.mk optionId name type (VariantOption.position old)
           (VariantOption.isRequired old) (VariantOption.shop old)
    /\ Forall (owned_by optionId) rows
    /\ map stored rows = map written values
    /\ OptionWithValues.values u
       = values_of optionId (variant_option_values w ++ rows)
    /\ variant_option_values w' = variant_option_values w ++ rows
    /\ variant_options w'
       = map (fun r => if String.eqb (VariantOption.id r) optionId
                       then OptionWithValues.row u else r)
             (variant_options w).
Proof.
  unfold variantOption_update, bind, engine, next_call_ok.
  destruct (hd None (faults w)) as [msg|]; [discriminate|].
  destruct (validate_values values) as [vals|] eqn:V; [|discriminate].
  simpl.
  destruct (find _ (variant_options w)) as [old|] eqn:F; [|discriminate].
  destruct (existsb _ (variant_options w)); [discriminate|].
  destruct (has_dup _ || existsb _ vals)%bool; [discriminate|].
  unfold fresh_cuids, set_tables. simpl.
  intro H. inversion H; subst; clear H. simpl.
  eexists old, _. repeat split; try reflexivity.
  - apply value_rows_owned.
  - rewrite value_rows_stored by now rewrite length_map, length_seq.
    now apply validate_values_written.
Qed.

End UpdateOptions.

(** C1, as the code has it.  [updateOptions] makes two storage calls.  The
    first deletes the values owned by the option and is committed on its
    own; the second updates the option's name and type and inserts the
    replacement values, all or nothing.  If the first call fails nothing is
    changed.  If the second fails, the option rows are as before and the
    values are those of before without the ones the option owned.  If both
    succeed, the option row has the new name and type, and the option owns
    exactly the replacement values, as returned. *)
Theorem updateOptions_delete_then_update
    (optionId : string) (optionData : ShopServer.OptionData)
    (w : Storage.World) :
  match ShopServer.updateOptions optionId optionData w with
  | (Storage.Throw e, w') =>
      Storage.variant_options w' = Storage.variant_options w
      /\ ((hd None (Storage.faults w) = Some (Storage.message e)
           /\ Storage.variant_option_values w'
              = Storage.variant_option_values w)
          \/ (next_call_ok w
              /\ Storage.variant_option_values w'
                 = Storage.values_not_of optionId
                     (Storage.variant_option_values w)))
  | (Storage.Return u, w') =>
      next_call_ok w
      /\ VariantOption.id (OptionWithValues.row u) = optionId
      /\ VariantOption.name (OptionWithValues.row u)
         = ShopServer.od_name optionData
      /\ VariantOption.type (OptionWithValues.row u)
         = Js.default_to (ShopServer.od_type optionData) "text"%string
      /\ Storage.variant_options w'
         = map (fun r => if String.eqb (VariantOption.id r) optionId
                         then OptionWithValues.row u else r)
               (Storage.variant_options w)
      /\ Storage.variant_option_values w'
         = Storage.values_not_of optionId (Storage.variant_option_values w)
           ++ OptionWithValues.values u
      /\ Forall (owned_by optionId) (OptionWithValues.values u)
      /\ map stored (OptionWithValues.values u)
         = map written
             (Js.mapi ShopServer.value_create
                (Js.default_to (ShopServer.od_values optionData) []))
  end.
Proof.
  unfold ShopServer.updateOptions, Storage.try_catch, Storage.bind,
    Storage.throw, Storage.ret.
  rewrite variantOptionValue_deleteMany_eq.
  destruct (hd None (Storage.faults w)) as [msg|] eqn:Hf.
  - simpl. split; trivial. left. now split.
  - match goal with
    | |- context [Storage.variantOption_update ?i ?n ?t ?v ?w1] =>
        destruct (Storage.variantOption_update i n t v w1)
          as [[u|e] w'] eqn:U
    end.
    + apply variantOption_update_return in U.
      destruct U as (old & rows & _ & _ & Hrow & Hown & Hst & Hval & Hvs & Hos).
      simpl in Hval, Hvs, Hos.
      unfold Storage.values_of in Hval. rewrite filter_app in Hval.
      fold (Storage.values_of optionId
              (Storage.values_not_of optionId
                 (Storage.variant_option_values w))) in Hval.
      fold (Storage.values_of optionId rows) in Hval.
      rewrite values_of_not_of, (values_of_owned optionId rows Hown) in Hval.
      simpl in Hval. subst rows.
      rewrite Hrow. simpl. rewrite <- Hrow.
      repeat split; trivial.
    + apply variantOption_update_throw in U. simpl in U.
      destruct U as [Hos Hvs]. split; trivial. right. now split.
Qed.

(** A shop with two options, Color (Red, Blue) and Size (S). *)
Definition color_and_size : Storage.World :=
  Storage.mkWorld
    [VariantOption.mk "c0" "Color" "text" 0 true "shopX";
     VariantOption.mk "c3" "Size" "text" 1 true "shopX"]
    [VariantOptionValue.mk "c1" "Red" 0 true "c0";
     VariantOptionValue.mk "c2" "Blue" 1 true "c0";
     VariantOptionValue.mk "c4" "S" 0 true "c3"]
    5 [].

(** C1 as stated fails: renaming option Color to the name of another
    option of the shop makes the update fail on the unique index
    (shop, name), after the values Red and Blue were deleted for good. *)
Lemma updateOptions_failure_loses_values :
  fst (ShopServer.updateOptions "c0"
         (ShopServer.mkOptionData "Size" (Some "text"%string) None None
            (Some [Storage.Raw "Red"; Storage.Raw "Green"]))
         color_and_size)
  = Storage.Throw Storage.unique_shop_name_error
  /\ Storage.variant_options
       (snd (ShopServer.updateOptions "c0"
               (ShopServer.mkOptionData "Size" (Some "text"%string) None None
                  (Some [Storage.Raw "Red"; Storage.Raw "Green"]))
               color_and_size))
     = Storage.variant_options color_and_size
  /\ Storage.variant_option_values
       (snd (ShopServer.updateOptions "c0"
               (ShopServer.mkOptionData "Size" (Some "text"%string) None None
                  (Some [Storage.Raw "Red"; Storage.Raw "Green"]))
               color_and_size))
     = [VariantOptionValue.mk "c4" "S" 0 true "c3"]
  /\ Storage.variant_option_values
       (snd (ShopServer.updateOptions "c0"
               (ShopServer.mkOptionData "Size" (Some "text"%string) None None
                  (Some [Storage.Raw "Red"; Storage.Raw "Green"]))
               color_and_size))
     <> Storage.variant_option_values color_and_size.
Proof. repeat split. discriminate. Qed.

(* ------------------------------------------------------------------ *)
(** ** shop.server.js: [deleteOptions] *)
(* ------------------------------------------------------------------ *)

Section DeleteOptions.
Import Storage ShopServer.

(** The id names an option of the shop. *)
Definition belongs (w : World) (shop id : string) : bool :=
  existsb (fun o => String.eqb (VariantOption.id o) id
                    && String.eqb (VariantOption.shop o) shop)
          (variant_options w).

(** [id] is the primary key of [variant_options]. *)
Definition primary_key (w : World) : Prop :=
  NoDup (map VariantOption.id (variant_options w)).

(** The rows [findMany] selects, before the projection to id and name. *)
Definition selected (w : World) (idsArray : list string) (shop : string)
  : list VariantOption.t :=
  filter (in_ids_and_shop idsArray shop) (variant_options w).

Definition id_name (o : VariantOption.t) : IdName :=
  mkIdName (VariantOption.id o) (VariantOption.name o).

Definition not_found_message (notFoundIds : list string) : string :=
  "Some options not found or don't belong to this shop: "
  ++ Js.join ", " notFoundIds.

Lemma includes_In (l : list string) (s : string) :
  Js.includes l s = true <-> In s l.
Proof.
  unfold Js.includes. rewrite existsb_exists. split.
  - intros [x [Hx E]]. apply String.eqb_eq in E. now subst.
  - intro H. exists s. split; trivial. apply String.eqb_refl.
Qed.

Lemma belongs_true (w : World) (shop id : string) :
  belongs w shop id = true <->
  exists o, In o (variant_options w)
            /\ VariantOption.id o = id /\ VariantOption.shop o = shop.
Proof.
  unfold belongs. rewrite existsb_exists.
  split; intros [o [Ho H]]; exists o; split; trivial.
  - apply andb_true_iff in H. now rewrite !String.eqb_eq in H.
  - apply andb_true_iff. now rewrite !String.eqb_eq.
Qed.

Lemma selected_In (w : World) (idsArray : list string) (shop : string)
    (o : VariantOption.t) :
  In o (selected w idsArray shop) <->
  In o (variant_options w) /\ In (VariantOption.id o) idsArray
  /\ VariantOption.shop o = shop.
Proof.
  unfold selected, in_ids_and_shop.
  rewrite filter_In, andb_true_iff, includes_In, String.eqb_eq. tauto.
Qed.

Lemma selected_ids_In (w : World) (idsArray : list string) (shop id : string) :
  In id (map VariantOption.id (selected w idsArray shop)) <->
  In id idsArray /\ belongs w shop id = true.
Proof.
  rewrite in_map_iff, belongs_true. split.
  - intros [o [<- Ho]]. apply selected_In in Ho.
    destruct Ho as (H1 & H2 & H3). split; trivial. now exists o.
  - intros [Hid [o (H1 & H2 & H3)]]. exists o. split; trivial.
    apply selected_In. subst. tauto.
Qed.

(** A key that is unique in a table is unique in any selection of it. *)
Lemma unique_key_filter {Row Key : Type} (key : Row -> Key)
    (keep : Row -> bool) (rows : list Row)
    (Hkey : NoDup (map key rows)) :
  NoDup (map key (filter keep rows)).
Proof.
  revert Hkey. induction rows as [|r rows IH]; simpl; intro Hkey; trivial.
  apply NoDup_cons_iff in Hkey. destruct Hkey as [Hr Hrows].
  destruct (keep r); simpl; auto.
  apply NoDup_cons; auto.
  intro Hin. apply Hr. apply in_map_iff in Hin.
  destruct Hin as [x [Hx Hin]]. apply filter_In in Hin.
  apply in_map_iff. exists x. tauto.
Qed.

Lemma filter_length_lt {A : Type} (p : A -> bool) (l : list A) (x : A) :
  In x l -> p x = false ->
  (List.length (filter p l) < List.length l)%nat.
Proof.
  induction l as [|a l IH]; simpl; [intros []|].
  intros [->|Hin] Hp.
  - rewrite Hp. pose proof (filter_length_le p l). lia.
  - specialize (IH Hin Hp). destruct (p a); simpl; lia.
Qed.

(** The name list of the error: the ids [findMany] did not return are the
    ids that name no option of the shop. *)
Lemma notFoundIds_unmatched (w : World) (idsArray : list string)
    (shop : string) :
  filter (fun id =>
            negb (Js.includes
                    (map sel_id (map id_name (selected w idsArray shop)))
                    id))
         idsArray
  = filter (fun id => negb (belongs w shop id)) idsArray.
Proof.
  apply filter_ext_in. intros id Hid. f_equal.
  rewrite map_map. simpl.
  apply eq_true_iff_eq. rewrite includes_In, selected_ids_In. tauto.
Qed.

(** With some id unmatched, [findMany] returns fewer rows than ids. *)
Lemma selected_fewer (w : World) (idsArray : list string) (shop id : string) :
  primary_key w ->
  In id idsArray -> belongs w shop id = false ->
  (List.length (selected w idsArray shop) < List.length idsArray)%nat.
Proof.
  intros Hpk Hid Hno.
  apply Nat.le_lt_trans
    with (m := List.length (filter (belongs w shop) idsArray)).
  - rewrite <- (length_map VariantOption.id).
    apply NoDup_incl_length.
    + now apply unique_key_filter.
    + intros x Hx. apply selected_ids_In in Hx. apply filter_In. tauto.
  - now apply filter_length_lt with (x := id).
Qed.

(** With distinct ids, all matched, [findMany] returns one row per id. *)
Lemma selected_all (w : World) (idsArray : list string) (shop : string) :
  primary_key w -> NoDup idsArray ->
  (forall id, In id idsArray -> belongs w shop id = true) ->
  List.length (selected w idsArray shop) = List.length idsArray.
Proof.
  intros Hpk Hnd Hall.
  rewrite <- (length_map VariantOption.id).
  apply Permutation_length, NoDup_Permutation; trivial.
  - now apply unique_key_filter.
  - intro x. rewrite selected_ids_In. split; [tauto|]. intro Hx. auto.
Qed.

(** Under the primary key, an option whose id is matched is the match. *)
Lemma belongs_shop (w : World) (shop : string) (o : VariantOption.t) :
  primary_key w -> In o (variant_options w) ->
  belongs w shop (VariantOption.id o) = true ->
  VariantOption.shop o = shop.
Proof.
  unfold primary_key. intros Hpk Ho Hb.
  apply belongs_true in Hb. destruct Hb as [o' (Ho' & Hid & Hshop)].
  assert (o' = o); [|now subst].
  clear Hshop. induction (variant_options w) as [|x l IH];
    simpl in *; [tauto|].
  inversion Hpk as [|? ? Hx Hl]; subst.
  destruct Ho as [->|Ho], Ho' as [->|Ho']; trivial.
  - exfalso. apply Hx. rewrite <- Hid. now apply in_map.
  - exfalso. apply Hx. rewrite Hid. now apply in_map.
  - now apply IH.
Qed.

End DeleteOptions.

Section DeleteOptionsRuns.
Import Storage ShopServer.

Variable w : World.
Variable idsArray : list string.
Variable shop : string.

Hypothesis ids_given : idsArray <> [].
Hypothesis shop_given : shop <> ""%string.

Lemma shop_present : shop_missing (Some shop) = false.
Proof.
  simpl. unfold Js.truthy, Js.Truthy_string.
  destruct (String.eqb_spec shop ""); simpl; congruence.
Qed.

(** The tables after the [deleteMany] of [deleteOptions]. *)
Definition after_delete (w0 : World) : World :=
  set_tables
    (filter (fun o => negb (in_ids_and_shop idsArray shop o))
            (variant_options w0))
    (filter (fun v =>
               negb (Js.includes
                       (map VariantOption.id (selected w0 idsArray shop))
                       (VariantOptionValue.variantOptionId v)))
            (variant_option_values w0))
    w0.

Lemma variantOption_findMany_in_eq (w0 : World) :
  variantOption_findMany_in idsArray shop w0 =
  match hd None (faults w0) with
  | Some msg => (Throw (mkError PrismaClientError msg), pop_fault w0)
  | None => (Return (map id_name (selected w0 idsArray shop)), pop_fault w0)
  end.
Proof.
  unfold variantOption_findMany_in, bind, engine.
  now destruct (hd None (faults w0)).
Qed.

Lemma variantOption_deleteMany_in_eq (w0 : World) :
  variantOption_deleteMany_in idsArray shop w0 =
  match hd None (faults w0) with
  | Some msg => (Throw (mkError PrismaClientError msg), pop_fault w0)
  | None =>
      (Return (List.length (selected w0 idsArray shop)),
       after_delete (pop_fault w0))
  end.
Proof.
  unfold variantOption_deleteMany_in, bind, engine.
  now destruct (hd None (faults w0)).
Qed.

(** Past its two validations, the [try] block is the verification query,
    the count comparison and the deletion. *)
Lemma deleteOptions_try_eq :
  deleteOptions_try (ManyIds idsArray) (Some shop) w =
  match hd None (faults w) with
  | Some msg => (Throw (mkError PrismaClientError msg), pop_fault w)
  | None =>
      if Nat.eqb (List.length (selected w idsArray shop))
                 (List.length idsArray)
      then
        match hd None (faults (pop_fault w)) with
        | Some msg =>
            (Throw (mkError PrismaClientError msg), pop_fault (pop_fault w))
        | None =>
            (Return (mkDeleteResult true
                       (List.length (selected w idsArray shop))
                       (map id_name (selected w idsArray shop))),
             after_delete (pop_fault (pop_fault w)))
        end
      else
        (Throw (mkError PlainError
                  (not_found_message
                     (filter (fun id => negb (belongs w shop id)) idsArray))),
         pop_fault w)
  end.
Proof.
  unfold deleteOptions_try.
  assert (Hlen : Nat.eqb (List.length idsArray) 0 = false)
    by (destruct idsArray; [congruence|reflexivity]).
  rewrite Hlen, shop_present. simpl Js.default_to.
  unfold bind. rewrite variantOption_findMany_in_eq.
  destruct (hd None (faults w)) as [msg|]; trivial.
  rewrite length_map, notFoundIds_unmatched.
  destruct (Nat.eqb (List.length (selected w idsArray shop))
                    (List.length idsArray)).
  - change (negb true) with false. cbv beta iota.
    rewrite variantOption_deleteMany_in_eq.
    now destruct (hd None (faults (pop_fault w))).
  - reflexivity.
Qed.

(** Some id names no option of the shop: the [try] block throws the error
    that names the unmatched ids, before any deletion. *)
Lemma deleteOptions_try_unmatched (id : string) :
  primary_key w -> next_call_ok w ->
  In id idsArray -> belongs w shop id = false ->
  deleteOptions_try (ManyIds idsArray) (Some shop) w
  = (Throw (mkError PlainError
              (not_found_message
                 (filter (fun id => negb (belongs w shop id)) idsArray))),
     pop_fault w).
Proof.
  intros Hpk Hok Hid Hno. rewrite deleteOptions_try_eq.
  unfold next_call_ok in Hok. rewrite Hok.
  pose proof (selected_fewer w idsArray shop id Hpk Hid Hno) as Hlt.
  destruct (Nat.eqb_spec (List.length (selected w idsArray shop))
                         (List.length idsArray)); [lia|reflexivity].
Qed.

(** Distinct ids, each naming an option of the shop: the [try] block
    deletes them and reports them. *)
Lemma deleteOptions_try_matched :
  primary_key w -> next_call_ok w -> next_call_ok (pop_fault w) ->
  NoDup idsArray ->
  (forall id, In id idsArray -> belongs w shop id = true) ->
  deleteOptions_try (ManyIds idsArray) (Some shop) w
  = (Return (mkDeleteResult true (List.length idsArray)
               (map id_name (selected w idsArray shop))),
     set_tables
       (filter (fun o => negb (Js.includes idsArray (VariantOption.id o)))
               (variant_options w))
       (filter (fun v =>
                  negb (Js.includes idsArray
                          (VariantOptionValue.variantOptionId v)))
               (variant_option_values w))
       (pop_fault (pop_fault w))).
Proof.
  intros Hpk Hok1 Hok2 Hnd Hall. rewrite deleteOptions_try_eq.
  unfold next_call_ok in Hok1, Hok2. rewrite Hok1, Hok2.
  rewrite (selected_all w idsArray shop Hpk Hnd Hall), Nat.eqb_refl.
  f_equal. unfold after_delete, set_tables. simpl. f_equal.
  - apply filter_ext_in. intros o Ho. f_equal.
    unfold in_ids_and_shop.
    destruct (Js.includes idsArray (VariantOption.id o)) eqn:E; trivial.
    simpl. apply String.eqb_eq.
    apply includes_In in E. now apply belongs_shop with (w := w); auto.
  - apply filter_ext. intro v. f_equal.
    apply eq_true_iff_eq.
    change (selected (pop_fault (pop_fault w)) idsArray shop)
      with (selected w idsArray shop).
    rewrite !includes_In, selected_ids_In. split; [tauto|].
    intro Hv. auto.
Qed.

End DeleteOptionsRuns.

Section DeleteOptionsOutcomes.
Import Storage ShopServer.

(** [Array.isArray(optionIds) ? optionIds : [optionIds]]. *)
Definition idsArray_of (optionIds : OptionIds) : list string :=
  match optionIds with
  | ManyIds l => l
  | OneId i => [i]
  end.

Definition delete_failed (cause : string) : JsError :=
  mkError PlainError ("Failed to delete options: " ++ cause).

Lemma deleteOptions_try_ids (optionIds : OptionIds) (shop : option string) :
  deleteOptions_try optionIds shop
  = deleteOptions_try (ManyIds (idsArray_of optionIds)) shop.
Proof. now destruct optionIds. Qed.

(** The [catch] clause: a throw of the [try] block is rethrown as a plain
    error with the prefixed message, in the same world. *)
Lemma deleteOptions_catch (optionIds : OptionIds) (shop : option string)
    (w w' : World) (cause : JsError) :
  deleteOptions_try optionIds shop w = (Throw cause, w') ->
  deleteOptions optionIds shop w = (Throw (delete_failed (message cause)), w').
Proof.
  intro H. unfold deleteOptions, try_catch. now rewrite H.
Qed.

Lemma deleteOptions_pass (optionIds : OptionIds) (shop : option string)
    (w w' : World) (r : DeleteResult) :
  deleteOptions_try optionIds shop w = (Return r, w') ->
  deleteOptions optionIds shop w = (Return r, w').
Proof.
  intro H. unfold deleteOptions, try_catch. now rewrite H.
Qed.

Lemma shop_missing_false (shop : option string) :
  shop_missing shop = false ->
  exists s, shop = Some s /\ s <> ""%string.
Proof.
  destruct shop as [s|]; simpl; [|discriminate].
  unfold Js.truthy, Js.Truthy_string.
  destruct (String.eqb_spec s ""); simpl; [discriminate|].
  intros _. now exists s.
Qed.

End DeleteOptionsOutcomes.

(** C2, where the code departs from it: both ids of the list name the
    option c0 of shopX, so every id belongs to the shop, yet the call fails
    with the not-found error, naming no id, and deletes nothing. *)
Theorem deleteOptions_repeated_id :
  belongs
    (Storage.mkWorld
       [VariantOption.mk "c0" "Color" "text" 0 true "shopX"]
       [VariantOptionValue.mk "c1" "Red" 0 true "c0"] 2 [])
    "shopX" "c0" = true
  /\ ShopServer.deleteOptions (ShopServer.ManyIds ["c0"; "c0"]%string)
       (Some "shopX"%string)
       (Storage.mkWorld
          [VariantOption.mk "c0" "Color" "text" 0 true "shopX"]
          [VariantOptionValue.mk "c1" "Red" 0 true "c0"] 2 [])
     = (Storage.Throw
          (Storage.mkError Storage.PlainError
             "Failed to delete options: Some options not found or don't belong to this shop: "),
        Storage.mkWorld
          [VariantOption.mk "c0" "Color" "text" 0 true "shopX"]
          [VariantOptionValue.mk "c1" "Red" 0 true "c0"] 2 []).
Proof. split; reflexivity. Qed.

(** X1.  [deleteOptions] with some id that names no option of the shop
    (missing, or of another shop): it fails, the message names the
    unmatched ids in the order given, and both tables are as before. *)
Theorem deleteOptions_rejects_unmatched
    (w : Storage.World) (idsArray : list string) (shop id : string) :
  primary_key w -> next_call_ok w -> shop <> ""%string ->
  In id idsArray -> belongs w shop id = false ->
  ShopServer.deleteOptions (ShopServer.ManyIds idsArray) (Some shop) w
  = (Storage.Throw
       (delete_failed
          (not_found_message
             (filter (fun i => negb (belongs w shop i)) idsArray))),
     Storage.pop_fault w)
  /\ Storage.variant_options (Storage.pop_fault w) = Storage.variant_options w
  /\ Storage.variant_option_values (Storage.pop_fault w)
     = Storage.variant_option_values w.
Proof.
  intros Hpk Hok Hshop Hid Hno. split; [|split; reflexivity].
  apply deleteOptions_catch
    with (cause := Storage.mkError Storage.PlainError
                     (not_found_message
                        (filter (fun i => negb (belongs w shop i)) idsArray))).
  apply deleteOptions_try_unmatched with (id := id); trivial.
  intro E. now rewrite E in Hid.
Qed.

Lemma deleteOptions_rejects_unmatched_witness :
  fst (ShopServer.deleteOptions (ShopServer.ManyIds ["A"; "B"]%string)
         (Some "shopX"%string)
         (Storage.mkWorld
            [VariantOption.mk "A" "Color" "text" 0 true "shopX";
             VariantOption.mk "B" "Size" "text" 0 true "shopY"]
            [VariantOptionValue.mk "v1" "Red" 0 true "A"] 0 []))
  = Storage.Throw
      (Storage.mkError Storage.PlainError
         "Failed to delete options: Some options not found or don't belong to this shop: B").
Proof.
  refine (f_equal fst
            (proj1 (deleteOptions_rejects_unmatched
                      (Storage.mkWorld
                         [VariantOption.mk "A" "Color" "text" 0 true "shopX";
                          VariantOption.mk "B" "Size" "text" 0 true "shopY"]
                         [VariantOptionValue.mk "v1" "Red" 0 true "A"] 0 [])
                      ["A"; "B"]%string "shopX" "B" _ eq_refl _ _ eq_refl))).
  - unfold primary_key. simpl.
    constructor.
    + intros [H|[]]. discriminate.
    + constructor; [intros []|constructor].
  - discriminate.
  - right. now left.
Defined.

(** X2.  [deleteOptions] with distinct ids that all name options of the
    shop: it returns their number and their id and name, and afterwards
    the tables hold the other options and the values of the other
    options. *)
Theorem deleteOptions_deletes_matched
    (w : Storage.World) (idsArray : list string) (shop : string) :
  primary_key w -> next_call_ok w -> next_call_ok (Storage.pop_fault w) ->
  shop <> ""%string -> idsArray <> [] -> NoDup idsArray ->
  (forall id, In id idsArray -> belongs w shop id = true) ->
  ShopServer.deleteOptions (ShopServer.ManyIds idsArray) (Some shop) w
  = (Storage.Return
       (ShopServer.mkDeleteResult true (List.length idsArray)
          (map id_name (selected w idsArray shop))),
     Storage.set_tables
       (filter (fun o => negb (Js.includes idsArray (VariantOption.id o)))
               (Storage.variant_options w))
       (filter (fun v =>
                  negb (Js.includes idsArray
                          (VariantOptionValue.variantOptionId v)))
               (Storage.variant_option_values w))
       (Storage.pop_fault (Storage.pop_fault w)))
  /\ Permutation (map Storage.sel_id (map id_name (selected w idsArray shop)))
                 idsArray.
Proof.
  intros Hpk Hok1 Hok2 Hshop Hids Hnd Hall. split.
  - apply deleteOptions_pass. now apply deleteOptions_try_matched.
  - rewrite map_map. simpl. apply NoDup_Permutation; trivial.
    + now apply unique_key_filter.
    + intro x.
      change (In x (map VariantOption.id (selected w idsArray shop))
              <-> In x idsArray).
      rewrite selected_ids_In. split; [tauto|]. intro Hx. auto.
Qed.

Lemma deleteOptions_deletes_matched_witness :
  ShopServer.deleteOptions (ShopServer.ManyIds ["B"; "A"]%string)
    (Some "shopX"%string)
    (Storage.mkWorld
       [VariantOption.mk "A" "Color" "text" 0 true "shopX";
        VariantOption.mk "B" "Size" "text" 1 true "shopX";
        VariantOption.mk "C" "Gift" "text" 0 true "shopY"]
       [VariantOptionValue.mk "v1" "Red" 0 true "A";
        VariantOptionValue.mk "v2" "Yes" 0 true "C";
        VariantOptionValue.mk "v3" "L" 0 true "B"] 0 [])
  = (Storage.Return
       (ShopServer.mkDeleteResult true 2
          [Storage.mkIdName "A" "Color"; Storage.mkIdName "B" "Size"]),
     Storage.mkWorld
       [VariantOption.mk "C" "Gift" "text" 0 true "shopY"]
       [VariantOptionValue.mk "v2" "Yes" 0 true "C"] 0 []).
Proof.
  refine (proj1 (deleteOptions_deletes_matched
                   (Storage.mkWorld
                      [VariantOption.mk "A" "Color" "text" 0 true "shopX";
                       VariantOption.mk "B" "Size" "text" 1 true "shopX";
                       VariantOption.mk "C" "Gift" "text" 0 true "shopY"]
                      [VariantOptionValue.mk "v1" "Red" 0 true "A";
                       VariantOptionValue.mk "v2" "Yes" 0 true "C";
                       VariantOptionValue.mk "v3" "L" 0 true "B"] 0 [])
                   ["B"; "A"]%string "shopX" _ eq_refl eq_refl _ _ _ _)).
  - unfold primary_key. simpl.
    repeat (constructor; [simpl; intuition discriminate|]). constructor.
  - discriminate.
  - discriminate.
  - repeat (constructor; [simpl; intuition discriminate|]). constructor.
  - intros id [<-|[<-|[]]]; reflexivity.
Defined.

(** C10.  Whatever the [try] block of [deleteOptions] throws, the caller
    gets a plain [Error] whose message is "Failed to delete options: "
    followed by the message of what was thrown; a result is passed on
    unchanged.  This covers the empty id list and the missing shop (both
    thrown before any storage call, the world untouched), the unmatched
    ids, and an error of the storage engine, which loses its class. *)
Theorem deleteOptions_failures_wrapped
    (optionIds : ShopServer.OptionIds) (shop : option string)
    (w : Storage.World) :
  match ShopServer.deleteOptions optionIds shop w with
  | (Storage.Throw e, w') =>
      Storage.cls e = Storage.PlainError
      /\ exists cause,
           ShopServer.deleteOptions_try optionIds shop w
             = (Storage.Throw cause, w')
           /\ Storage.message e
              = ("Failed to delete options: " ++ Storage.message cause)%string
  | (Storage.Return r, w') =>
      ShopServer.deleteOptions_try optionIds shop w = (Storage.Return r, w')
  end
  /\ ShopServer.deleteOptions (ShopServer.ManyIds []) shop w
     = (Storage.Throw
          (Storage.mkError Storage.PlainError
             "Failed to delete options: No option IDs provided for deletion"),
        w)
  /\ (idsArray_of optionIds <> [] ->
      ShopServer.shop_missing shop = true ->
      ShopServer.deleteOptions optionIds shop w
      = (Storage.Throw
           (Storage.mkError Storage.PlainError
              "Failed to delete options: Shop identifier is required for deletion"),
         w))
  /\ (forall s id,
        shop = Some s -> s <> ""%string ->
        primary_key w -> next_call_ok w ->
        In id (idsArray_of optionIds) -> belongs w s id = false ->
        ShopServer.deleteOptions optionIds shop w
        = (Storage.Throw
             (Storage.mkError Storage.PlainError
                ("Failed to delete options: "
                 ++ not_found_message
                      (filter (fun i => negb (belongs w s i))
                              (idsArray_of optionIds)))),
           Storage.pop_fault w))
  /\ (forall msg,
        idsArray_of optionIds <> [] ->
        ShopServer.shop_missing shop = false ->
        hd None (Storage.faults w) = Some msg ->
        ShopServer.deleteOptions optionIds shop w
        = (Storage.Throw
             (Storage.mkError Storage.PlainError
                ("Failed to delete options: " ++ msg)),
           Storage.pop_fault w)).
Proof.
  split; [|split; [|split; [|split]]].
  - unfold ShopServer.deleteOptions, Storage.try_catch.
    destruct (ShopServer.deleteOptions_try optionIds shop w)
      as [[r|cause] w']; trivial.
    simpl. split; trivial. now exists cause.
  - reflexivity.
  - intros Hids Hshop.
    apply (deleteOptions_catch optionIds shop w w
             (Storage.mkError Storage.PlainError
                "Shop identifier is required for deletion")).
    rewrite deleteOptions_try_ids. unfold ShopServer.deleteOptions_try.
    destruct (idsArray_of optionIds); [congruence|].
    simpl. now rewrite Hshop.
  - intros s id -> Hs Hpk Hok Hid Hno.
    apply (deleteOptions_catch optionIds (Some s) w (Storage.pop_fault w)
             (Storage.mkError Storage.PlainError
                (not_found_message
                   (filter (fun i => negb (belongs w s i))
                           (idsArray_of optionIds))))).
    rewrite deleteOptions_try_ids.
    apply deleteOptions_try_unmatched with (id := id); trivial.
    intro E. now rewrite E in Hid.
  - intros msg Hids Hshop Hf.
    apply shop_missing_false in Hshop. destruct Hshop as [s [-> Hs]].
    apply (deleteOptions_catch optionIds (Some s) w (Storage.pop_fault w)
             (Storage.mkError Storage.PrismaClientError msg)).
    rewrite deleteOptions_try_ids, (deleteOptions_try_eq w _ s Hids Hs).
    now rewrite Hf.
Qed.

Example deleteOptions_failure_messages :
  fst (ShopServer.deleteOptions (ShopServer.ManyIds []) (Some "shopX"%string)
         (Storage.mkWorld [] [] 0 []))
  = Storage.Throw
      (Storage.mkError Storage.PlainError
         "Failed to delete options: No option IDs provided for deletion")
  /\ fst (ShopServer.deleteOptions (ShopServer.OneId "A") None
            (Storage.mkWorld [] [] 0 []))
     = Storage.Throw
         (Storage.mkError Storage.PlainError
            "Failed to delete options: Shop identifier is required for deletion")
  /\ fst (ShopServer.deleteOptions (ShopServer.OneId "A")
            (Some "shopX"%string)
            (Storage.mkWorld [] [] 0 [Some "database is locked"%string]))
     = Storage.Throw
         (Storage.mkError Storage.PlainError
            "Failed to delete options: database is locked").
Proof. repeat split. Qed.

(* ------------------------------------------------------------------ *)
(** ** shop.server.js: [createOptions] on raw strings *)
(* ------------------------------------------------------------------ *)

Section CreateRaw.
Import Storage ShopServer.

Lemma has_dup_false (l : list string) : has_dup l = false <-> NoDup l.
Proof.
  induction l as [|x l IH]; simpl.
  - split; [constructor|trivial].
  - rewrite orb_false_iff, IH, NoDup_cons_iff.
    rewrite <- includes_In. destruct (Js.includes l x); intuition congruence.
Qed.

(** What the [map] callback makes of raw strings, from index [i] on. *)
Definition raw_columns (i : nat) (names : list string)
  : list (string * Z * bool) :=
  Js.mapi_from (fun s j => (s, Z.of_nat j, true)) i names.


Lemma raw_columns_names (i : nat) (names : list string) :
  map (fun '(v, _, _) => v) (raw_columns i names) = names.
Proof.
  revert i. induction names as [|s names IH]; intro i; simpl; trivial.
  f_equal. apply IH.
Qed.



End CreateRaw.



(* ------------------------------------------------------------------ *)
(** ** useOptions.js: a session of the store *)
(* ------------------------------------------------------------------ *)

Section Session.
Import UseOptions.

(** What can happen to the [options] state between two renders. *)
Inductive Event : Type :=
| Sync (loadedOptions : list LoadedOption.t)
| Reset
| ToggleValue (optionId : Id) (valueName : string)
| ToggleAll (optionId : Id)
| Add (newOption : option UiOption.t)
| Update (updatedOption : option UiOption.t)
| Remove (optionIds : IdOrIds).

Definition apply_event (e : Event) (s : Store) : Store :=
  match e with
  | Sync l => syncFromServer (Some l) s
  | Reset => resetOptions s
  | ToggleValue i n => handleToggleValueChecked i n s
  | ToggleAll i => handleToggleAllValues i s
  | Add o => addOption o s
  | Update o => updateOption o s
  | Remove ids => removeOptions ids s
  end.

(** The states of a session: it starts from [useState([])]; the options
    a sync receives come from [getOptions], so their ids are distinct. *)
Inductive reachable : Store -> Prop :=
| reachable_initial : reachable []
| reachable_sync (l : list LoadedOption.t) (s : Store) :
    reachable s -> NoDup (map LoadedOption.id l) ->
    reachable (apply_event (Sync l) s)
| reachable_local (e : Event) (s : Store) :
    reachable s -> (forall l, e <> Sync l) ->
    reachable (apply_event e s).

Lemma NoDup_map_IdStr (l : list string) :
  NoDup l -> NoDup (map IdStr l).
Proof.
  induction 1 as [|x l Hx _ IH]; simpl; constructor; trivial.
  rewrite in_map_iff. intros [y [E Hy]]. now inversion E; subst.
Qed.

Lemma transformOptions_unique_ids (l : list LoadedOption.t) :
  NoDup (map LoadedOption.id l) -> unique_ids (transformOptions l).
Proof.
  intro H. unfold unique_ids, transformOptions. rewrite map_map. simpl.
  rewrite <- (map_map LoadedOption.id IdStr). now apply NoDup_map_IdStr.
Qed.

Lemma map_keeps_ids (f : UiOption.t -> UiOption.t) (s : Store) :
  (forall o, UiOption.id (f o) = UiOption.id o) ->
  map UiOption.id (map f s) = map UiOption.id s.
Proof.
  intro H. rewrite map_map. apply map_ext. exact H.
Qed.

Lemma handleToggleValueChecked_ids (i : Id) (n : string) (s : Store) :
  map UiOption.id (handleToggleValueChecked i n s) = map UiOption.id s.
Proof.
  apply map_keeps_ids. intro o.
  now destruct (Id_eqb (UiOption.id o) i).
Qed.

Lemma handleToggleAllValues_ids (i : Id) (s : Store) :
  map UiOption.id (handleToggleAllValues i s) = map UiOption.id s.
Proof.
  apply map_keeps_ids. intro o.
  now destruct (Id_eqb (UiOption.id o) i).
Qed.

Lemma updateOption_unique_ids (n : option UiOption.t) (s : Store) :
  unique_ids s -> unique_ids (updateOption n s).
Proof.
  intro Hs. destruct n as [n|]; trivial.
  unfold updateOption.
  destruct (negb (Js.truthy (UiOption.id n))); trivial.
  destruct (Js.some _ s) eqn:E; simpl.
  - unfold unique_ids. fold (replace_by_id n s).
    now rewrite replace_by_id_ids.
  - unfold unique_ids. rewrite map_app. simpl.
    apply NoDup_app; trivial.
    + constructor; [intros []|constructor].
    + intros x Hx [<-|[]].
      apply in_map_iff in Hx. destruct Hx as [o [Ho Hin]].
      unfold Js.some in E.
      assert (T : existsb (fun opt => Id_eqb (UiOption.id opt) (UiOption.id n))
                          s = true).
      { apply existsb_exists. exists o. split; trivial. now apply Id_eqb_eq. }
      congruence.
Qed.

Lemma removeOptions_unique_ids (ids : IdOrIds) (s : Store) :
  unique_ids s -> unique_ids (removeOptions ids s).
Proof.
  intro Hs. unfold removeOptions.
  destruct ids as [i|[|i ids]]; trivial; now apply unique_key_filter.
Qed.

(** X4.  Ids stay unique throughout a session. *)
Lemma reachable_unique_ids (s : Store) : reachable s -> unique_ids s.
Proof.
  induction 1 as [|l s _ _ Hl|e s _ IH Hlocal].
  - constructor.
  - simpl. now apply transformOptions_unique_ids.
  - destruct e as [l| |i n|i|o|o|ids]; simpl.
    + now destruct (Hlocal l).
    + constructor.
    + unfold unique_ids. now rewrite handleToggleValueChecked_ids.
    + unfold unique_ids. now rewrite handleToggleAllValues_ids.
    + now apply addOption_unique_ids.
    + now apply updateOption_unique_ids.
    + now apply removeOptions_unique_ids.
Qed.

End Session.

Section AppSession.
Import UseOptions.

(** The states the route component drives the store through: it adds
    what [createOptionObject] builds and updates with what
    [updateOptionObject] builds from an option it was shown earlier. *)
Inductive app_reachable : Store -> Prop :=
| app_initial : app_reachable []
| app_sync (l : list LoadedOption.t) (s : Store) :
    app_reachable s -> app_reachable (syncFromServer (Some l) s)
| app_toggle_value (i : Id) (n : string) (s : Store) :
    app_reachable s -> app_reachable (handleToggleValueChecked i n s)
| app_toggle_all (i : Id) (s : Store) :
    app_reachable s -> app_reachable (handleToggleAllValues i s)
| app_add (now : Z) (name : string) (values : list string) (type : string)
    (s : Store) :
    app_reachable s ->
    app_reachable
      (addOption (Some (OptionUtils.createOptionObject now name values type))
                 s)
| app_edit (shown : Store) (o : UiOption.t) (name : string)
    (values : list string) (type : string) (s : Store) :
    app_reachable s -> app_reachable shown -> In o shown ->
    app_reachable
      (updateOption
         (Some (OptionUtils.updateOptionObject o name values type)) s)
| app_remove (ids : IdOrIds) (s : Store) :
    app_reachable s -> app_reachable (removeOptions ids s).

Definition not_optional (o : UiOption.t) : Prop :=
  UiOption.isRequired o <> Some false.

Lemma Forall_map_same {A : Type} (P : A -> Prop) (f : A -> A) (l : list A) :
  (forall a, P a -> P (f a)) -> Forall P l -> Forall P (map f l).
Proof.
  intros Hf Hl. apply Forall_map. eapply Forall_impl; [|exact Hl]. exact Hf.
Qed.

Lemma addOption_Forall (P : UiOption.t -> Prop) (n : UiOption.t) (s : Store) :
  P n -> Forall P s -> Forall P (addOption (Some n) s).
Proof.
  intros Hn Hs. unfold addOption.
  destruct (negb (Js.truthy (UiOption.id n))); trivial.
  destruct (find _ s).
  - apply Forall_map_same; trivial. intros o Ho.
    now destruct (Id_eqb (UiOption.id o) (UiOption.id n)).
  - apply Forall_app. split; trivial. now constructor.
Qed.

Lemma updateOption_Forall (P : UiOption.t -> Prop) (n : UiOption.t)
    (s : Store) :
  P n -> Forall P s -> Forall P (updateOption (Some n) s).
Proof.
  intros Hn Hs. unfold updateOption.
  destruct (negb (Js.truthy (UiOption.id n))); trivial.
  destruct (negb (Js.some _ s)).
  - apply Forall_app. split; trivial. now constructor.
  - apply Forall_map_same; trivial. intros o Ho.
    now destruct (Id_eqb (UiOption.id o) (UiOption.id n)).
Qed.

(** X5.  No option of the store ever has [isRequired = false], whatever
    the server persisted. *)
Lemma app_reachable_not_optional (s : Store) :
  app_reachable s -> Forall not_optional s.
Proof.
  induction 1 as [|l s _ _|i n s _ IH|i s _ IH|now name values type s _ IH
                  |shown o name values type s _ IH _ IHshown Ho|ids s _ IH].
  - constructor.
  - simpl. unfold transformOptions. apply Forall_map, Forall_forall.
    intros lo _. unfold not_optional. simpl. now rewrite or_else_true.
  - apply Forall_map_same; trivial. intros o Ho.
    now destruct (Id_eqb (UiOption.id o) i).
  - apply Forall_map_same; trivial. intros o Ho.
    now destruct (Id_eqb (UiOption.id o) i).
  - apply addOption_Forall; trivial. discriminate.
  - apply updateOption_Forall; trivial.
    exact (proj1 (Forall_forall _ _) IHshown o Ho).
  - unfold removeOptions. destruct ids as [i|[|i ids]]; trivial;
    apply Forall_forall; intros o Ho; apply filter_In in Ho;
    exact (proj1 (Forall_forall _ _) IH o (proj1 Ho)).
Qed.

End AppSession.

Lemma reachable_unique_ids_witness :
  unique_ids
    (apply_event
       (Add (Some (OptionUtils.createOptionObject 1700000000000 "Size"
                     ["S"; "M"]%string "text")))
       (apply_event
          (Sync [LoadedOption.mk "c0" "Color" (Some "color"%string) (Some 0)
                   (Some true) [LoadedValue.mk "Red" true (Some 0)]])
          [])).
Proof.
  apply reachable_unique_ids.
  apply reachable_local; [|discriminate].
  apply reachable_sync; [apply reachable_initial|].
  simpl. constructor; [intros []|constructor].
Defined.

Lemma app_reachable_not_optional_witness :
  Forall not_optional
    (UseOptions.updateOption
       (Some (OptionUtils.updateOptionObject
                (UiOption.mk (IdStr "c0") "Engraving" "text" (Some 0)
                   (Some true) [])
                "Engraving" ["Yes"]%string "text"))
       (UseOptions.syncFromServer
          (Some [LoadedOption.mk "c0" "Engraving" (Some "text"%string)
                   (Some 0) (Some false) []])
          [])).
Proof.
  apply app_reachable_not_optional.
  apply app_edit
    with (shown := UseOptions.syncFromServer
                     (Some [LoadedOption.mk "c0" "Engraving"
                              (Some "text"%string) (Some 0) (Some false) []])
                     []).
  - apply app_sync, app_initial.
  - apply app_sync, app_initial.
  - now left.
Defined.

(* ------------------------------------------------------------------ *)
(** ** useOptions.js: [handleToggleValueChecked] *)
(* ------------------------------------------------------------------ *)

Section ToggleValue.
Import UseOptions.

(** The callback on the values of the option that is hit. *)
Definition flip_named (n : string) (v : UiValue.t) : UiValue.t :=
  if String.eqb (UiValue.name v) n
  then UiValue.with_checked (negb (UiValue.checked v)) v
  else v.

Lemma flip_named_twice (n : string) (v : UiValue.t) :
  flip_named n (flip_named n v) = v.
Proof.
  unfold flip_named. destruct v as [name c p]. simpl.
  destruct (String.eqb name n) eqn:E; simpl; rewrite ?E; trivial.
  unfold UiValue.with_checked. simpl. now rewrite negb_involutive.
Qed.

Lemma flip_named_other (n : string) (vs : list UiValue.t) :
  (forall v, In v vs -> UiValue.name v <> n) -> map (flip_named n) vs = vs.
Proof.
  intro H. rewrite <- (map_id vs) at 2. apply map_ext_in. intros v Hv.
  unfold flip_named. destruct (String.eqb_spec (UiValue.name v) n); trivial.
  now destruct (H v Hv).
Qed.

Lemma with_values_same (o : UiOption.t) :
  UiOption.with_values (UiOption.values o) o = o.
Proof. now destruct o. Qed.

(** What a flipped value looks like, whether it was hit or not. *)
Definition flipped_if (hit : bool) (v v' : UiValue.t) : Prop :=
  UiValue.name v' = UiValue.name v
  /\ UiValue.position v' = UiValue.position v
  /\ UiValue.checked v' = xorb hit (UiValue.checked v).

Lemma flip_named_flipped (n : string) (v : UiValue.t) :
  flipped_if (String.eqb (UiValue.name v) n) v (flip_named n v).
Proof.
  unfold flip_named, flipped_if.
  destruct (String.eqb (UiValue.name v) n); simpl; repeat split; trivial.
Qed.

End ToggleValue.

(** X6.  Toggling the same value of the same option twice gives back the
    store as it was, whatever the store holds. *)
Theorem handleToggleValueChecked_twice
    (optionId : Id) (valueName : string) (s : UseOptions.Store) :
  UseOptions.handleToggleValueChecked optionId valueName
    (UseOptions.handleToggleValueChecked optionId valueName s) = s.
Proof.
  unfold UseOptions.handleToggleValueChecked. rewrite map_map.
  rewrite <- (map_id s) at 2. apply map_ext. intro o.
  destruct (Id_eqb (UiOption.id o) optionId) eqn:E.
  - cbn [UiOption.id UiOption.with_values UiOption.values].
    rewrite E. fold (flip_named valueName).
    unfold UiOption.with_values. cbn [UiOption.id UiOption.name UiOption.type
      UiOption.position UiOption.isRequired UiOption.values].
    rewrite map_map.
    rewrite (map_ext _ (fun v => v) (flip_named_twice valueName)), map_id.
    now destruct o.
  - now rewrite E.
Qed.

(** X7.  [handleToggleValueChecked optionId valueName] keeps every entry
    in place with its id, name, type, position and isRequired, and every
    value in place with its name and position; it negates [checked] on
    exactly the values called [valueName] of the entries with id
    [optionId].  When no such value exists the store is returned as it
    was. *)
Theorem handleToggleValueChecked_flips_named
    (optionId : Id) (valueName : string) (s : UseOptions.Store) :
  Forall2
    (fun o o' =>
       UiOption.id o' = UiOption.id o
       /\ UiOption.name o' = UiOption.name o
       /\ UiOption.type o' = UiOption.type o
       /\ UiOption.position o' = UiOption.position o
       /\ UiOption.isRequired o' = UiOption.isRequired o
       /\ Forall2
            (fun v v' =>
               flipped_if (Id_eqb (UiOption.id o) optionId
                           && String.eqb (UiValue.name v) valueName) v v')
            (UiOption.values o) (UiOption.values o'))
    s (UseOptions.handleToggleValueChecked optionId valueName s)
  /\ ((forall o v,
          In o s -> UiOption.id o = optionId ->
          In v (UiOption.values o) -> UiValue.name v <> valueName) ->
      UseOptions.handleToggleValueChecked optionId valueName s = s).
Proof.
  split.
  - unfold UseOptions.handleToggleValueChecked.
    apply Forall2_map_r. intros o _.
    destruct (Id_eqb (UiOption.id o) optionId) eqn:E; simpl.
    + repeat split; trivial. apply Forall2_map_r. intros v _.
      apply (flip_named_flipped valueName v).
    + repeat split; trivial.
      rewrite <- (map_id (UiOption.values o)) at 2.
      apply Forall2_map_r. intros v _. unfold flipped_if. simpl.
      now repeat split.
  - intro Hnone. unfold UseOptions.handleToggleValueChecked.
    rewrite <- (map_id s) at 2. apply map_ext_in. intros o Ho.
    destruct (Id_eqb (UiOption.id o) optionId) eqn:E; trivial.
    apply Id_eqb_eq in E. fold (flip_named valueName).
    rewrite flip_named_other; [apply with_values_same|].
    intros v Hv. now apply (Hnone o v).
Qed.

(* ------------------------------------------------------------------ *)
(** ** useOptions.js: repeated [handleToggleAllValues] *)
(* ------------------------------------------------------------------ *)

Section ToggleAllAgain.
Import UseOptions.

Lemma set_all_set_all (c c' : bool) (o : UiOption.t) :
  set_all c (set_all c' o) = set_all c o.
Proof.
  unfold set_all, UiOption.with_values. simpl. f_equal.
  rewrite map_map. reflexivity.
Qed.

Lemma all_checked_set_all_empty (c : bool) (o : UiOption.t) :
  UiOption.values o = [] -> set_all c o = o.
Proof.
  intro E. unfold set_all. rewrite E. simpl. rewrite <- E.
  apply with_values_same.
Qed.

(** One entry after one and after two calls that hit it. *)
Definition toggled_once (o : UiOption.t) : UiOption.t :=
  set_all (negb (all_checked o)) o.

Lemma toggled_once_twice (o : UiOption.t) :
  toggled_once (toggled_once o) = set_all (all_checked o) o.
Proof.
  unfold toggled_once.
  destruct (UiOption.values o) as [|v vs] eqn:E.
  - rewrite !all_checked_set_all_empty; trivial.
    now rewrite all_checked_set_all_empty.
  - rewrite all_checked_set_all by (rewrite E; discriminate).
    now rewrite set_all_set_all, negb_involutive.
Qed.

Lemma toggled_once_thrice (o : UiOption.t) :
  toggled_once (toggled_once (toggled_once o)) = toggled_once o.
Proof.
  replace (toggled_once (toggled_once o)) with (set_all (all_checked o) o)
    by (symmetry; apply toggled_once_twice).
  unfold toggled_once.
  destruct (UiOption.values o) as [|v vs] eqn:E.
  - now rewrite !(all_checked_set_all_empty _ o E).
  - rewrite all_checked_set_all by (rewrite E; discriminate).
    apply set_all_set_all.
Qed.

Lemma handleToggleAllValues_map (i : Id) (s : Store) :
  handleToggleAllValues i s
  = map (fun o => if Id_eqb (UiOption.id o) i then toggled_once o else o) s.
Proof. reflexivity. Qed.

Lemma map_hit_compose (i : Id) (f g : UiOption.t -> UiOption.t) (s : Store) :
  (forall o, UiOption.id (g o) = UiOption.id o) ->
  map (fun o => if Id_eqb (UiOption.id o) i then f o else o)
      (map (fun o => if Id_eqb (UiOption.id o) i then g o else o) s)
  = map (fun o => if Id_eqb (UiOption.id o) i then f (g o) else o) s.
Proof.
  intro Hg. rewrite map_map. apply map_ext. intro o.
  destruct (Id_eqb (UiOption.id o) i) eqn:E.
  - now rewrite Hg, E.
  - now rewrite E.
Qed.

End ToggleAllAgain.

(** X8.  Select-all is not its own inverse.  Two calls of
    [handleToggleAllValues] leave every value of the option equal to
    the answer to "were all values checked at the start?", so a mixed
    selection is not restored but cleared; and from the first call on the
    store alternates between two states: three calls give what one call
    gives. *)
Theorem handleToggleAllValues_alternates
    (optionId : Id) (s : UseOptions.Store) :
  UseOptions.handleToggleAllValues optionId
    (UseOptions.handleToggleAllValues optionId s)
  = map (fun o => if Id_eqb (UiOption.id o) optionId
                  then set_all (all_checked o) o else o) s
  /\ UseOptions.handleToggleAllValues optionId
       (UseOptions.handleToggleAllValues optionId
          (UseOptions.handleToggleAllValues optionId s))
     = UseOptions.handleToggleAllValues optionId s.
Proof.
  rewrite !handleToggleAllValues_map.
  assert (Hid : forall o, UiOption.id (toggled_once o) = UiOption.id o)
    by reflexivity.
  split.
  - rewrite map_hit_compose by exact Hid.
    apply map_ext. intro o. now rewrite toggled_once_twice.
  - rewrite map_hit_compose by exact Hid.
    rewrite map_hit_compose by exact Hid.
    apply map_ext. intro o. now rewrite toggled_once_thrice.
Qed.

(* ------------------------------------------------------------------ *)
(** ** useOptions.js: writes followed by reads *)
(* ------------------------------------------------------------------ *)

Section StoreLookups.
Import UseOptions.

Lemma getOption_none (i : Id) (s : Store) :
  getOption i s = None <-> ~ In i (map UiOption.id s).
Proof. apply find_id_none. Qed.

Lemma getOption_app (i : Id) (s t : Store) :
  getOption i (s ++ t)
  = match getOption i s with
    | Some o => Some o
    | None => getOption i t
    end.
Proof.
  unfold getOption. induction s as [|o s IH]; simpl; trivial.
  now destruct (Id_eqb (UiOption.id o) i).
Qed.

Lemma getOption_replace_same (n : UiOption.t) (s : Store) :
  In (UiOption.id n) (map UiOption.id s) ->
  getOption (UiOption.id n) (replace_by_id n s) = Some n.
Proof.
  unfold getOption, replace_by_id.
  induction s as [|o s IH]; simpl; [intros []|].
  intro Hin. destruct (Id_eqb (UiOption.id o) (UiOption.id n)) eqn:E; simpl.
  - now rewrite Id_eqb_refl.
  - rewrite E. apply IH. apply Id_eqb_neq in E. destruct Hin; congruence.
Qed.

Lemma getOption_replace_other (i : Id) (n : UiOption.t) (s : Store) :
  i <> UiOption.id n ->
  getOption i (replace_by_id n s) = getOption i s.
Proof.
  intro Hne. unfold getOption, replace_by_id.
  induction s as [|o s IH]; simpl; trivial.
  destruct (Id_eqb (UiOption.id o) (UiOption.id n)) eqn:E; simpl.
  - apply Id_eqb_eq in E.
    assert (E1 : Id_eqb (UiOption.id n) i = false)
      by (apply Id_eqb_neq; congruence).
    assert (E2 : Id_eqb (UiOption.id o) i = false)
      by (apply Id_eqb_neq; congruence).
    now rewrite E1, E2.
  - destruct (Id_eqb (UiOption.id o) i); trivial.
Qed.

(** [updateOption] on a valid option object, as an upsert by id. *)
Lemma updateOption_upsert (n : UiOption.t) (s : Store) :
  Js.truthy (UiOption.id n) = true ->
  (~ In (UiOption.id n) (map UiOption.id s) ->
   updateOption (Some n) s = s ++ [n])
  /\ (In (UiOption.id n) (map UiOption.id s) ->
      updateOption (Some n) s = replace_by_id n s).
Proof.
  intro Ht. unfold updateOption. rewrite Ht. simpl.
  destruct (Js.some _ s) eqn:F; simpl; unfold Js.some in F.
  - split; intro H; trivial.
    apply existsb_exists in F. destruct F as [o [Ho E]].
    apply Id_eqb_eq in E. exfalso. apply H. rewrite <- E. now apply in_map.
  - split; intro H; trivial.
    apply in_map_iff in H. destruct H as [o [E Ho]].
    assert (T : existsb (fun opt => Id_eqb (UiOption.id opt) (UiOption.id n))
                        s = true).
    { apply existsb_exists. exists o. split; trivial. now apply Id_eqb_eq. }
    congruence.
Qed.

(** Both writers agree on a valid option object. *)
Lemma updateOption_addOption (n : UiOption.t) (s : Store) :
  Js.truthy (UiOption.id n) = true ->
  updateOption (Some n) s = addOption (Some n) s.
Proof.
  intro Ht.
  destruct (updateOption_upsert n s Ht) as [Hu1 Hu2].
  destruct (addOption_upsert n s Ht) as [Ha1 Ha2].
  destruct (getOption (UiOption.id n) s) eqn:G.
  - assert (Hin : In (UiOption.id n) (map UiOption.id s)).
    { destruct (in_dec (fun a b => Bool.reflect_dec _ _
                          (iff_reflect _ _ (iff_sym (Id_eqb_eq a b))))
                       (UiOption.id n) (map UiOption.id s)); trivial.
      apply getOption_none in n0. congruence. }
    now rewrite Hu2, Ha2.
  - apply getOption_none in G. now rewrite Hu1, Ha1.
Qed.

Lemma getOption_filter_out (i : Id) (ids : list Id) (s : Store) :
  getOption i
    (filter (fun o => negb (existsb (Id_eqb (UiOption.id o)) ids)) s)
  = if existsb (Id_eqb i) ids then None else getOption i s.
Proof.
  unfold getOption. induction s as [|o s IH]; simpl.
  - now destruct (existsb (Id_eqb i) ids).
  - destruct (existsb (Id_eqb (UiOption.id o)) ids) eqn:Eo; simpl.
    + rewrite IH. destruct (Id_eqb (UiOption.id o) i) eqn:E; trivial.
      apply Id_eqb_eq in E. subst i. now rewrite Eo.
    + destruct (Id_eqb (UiOption.id o) i) eqn:E; trivial.
      apply Id_eqb_eq in E. subst i. now rewrite Eo.
Qed.

Lemma kept_and_dropped {A : Type} (drop : A -> bool) (l : list A) :
  (List.length (filter (fun a => negb (drop a)) l)
   + List.length (filter drop l) = List.length l)%nat.
Proof.
  induction l as [|a l IH]; simpl; trivial.
  destruct (drop a); simpl; lia.
Qed.

End StoreLookups.

(** X9.  A valid option object (one with a truthy id) given to
    [addOption] or to [updateOption] is what [getOption] returns for its
    id afterwards, and what [getOption] returns for any other id is not
    changed by the write.  The two writers give the same store. *)
Theorem getOption_after_write
    (n : UiOption.t) (s : UseOptions.Store) :
  Js.truthy (UiOption.id n) = true ->
  UseOptions.getOption (UiOption.id n) (UseOptions.addOption (Some n) s)
    = Some n
  /\ UseOptions.getOption (UiOption.id n) (UseOptions.updateOption (Some n) s)
     = Some n
  /\ (forall i,
        i <> UiOption.id n ->
        UseOptions.getOption i (UseOptions.addOption (Some n) s)
          = UseOptions.getOption i s
        /\ UseOptions.getOption i (UseOptions.updateOption (Some n) s)
           = UseOptions.getOption i s)
  /\ UseOptions.updateOption (Some n) s = UseOptions.addOption (Some n) s.
Proof.
  intro Ht.
  pose proof (updateOption_addOption n s Ht) as Hsame.
  rewrite Hsame.
  destruct (addOption_upsert n s Ht) as [Habsent Hpresent].
  assert (Hself : UseOptions.getOption (UiOption.id n)
                    (UseOptions.addOption (Some n) s) = Some n).
  { destruct (UseOptions.getOption (UiOption.id n) s) eqn:G.
    - assert (Hin : In (UiOption.id n) (map UiOption.id s)).
      { apply find_some in G. destruct G as [Hin E].
        apply Id_eqb_eq in E. rewrite <- E. now apply in_map. }
      rewrite (Hpresent Hin). now apply getOption_replace_same.
    - pose proof G as G'. apply getOption_none in G'.
      rewrite (Habsent G'), getOption_app, G. simpl.
      unfold UseOptions.getOption. simpl. now rewrite Id_eqb_refl. }
  assert (Hframe : forall i, i <> UiOption.id n ->
            UseOptions.getOption i (UseOptions.addOption (Some n) s)
            = UseOptions.getOption i s).
  { intros i Hne.
    destruct (UseOptions.getOption (UiOption.id n) s) eqn:G.
    - assert (Hin : In (UiOption.id n) (map UiOption.id s)).
      { apply find_some in G. destruct G as [Hin E].
        apply Id_eqb_eq in E. rewrite <- E. now apply in_map. }
      rewrite (Hpresent Hin). now apply getOption_replace_other.
    - apply getOption_none in G.
      rewrite (Habsent G), getOption_app.
      destruct (UseOptions.getOption i s); trivial.
      unfold UseOptions.getOption. simpl.
      assert (E : Id_eqb (UiOption.id n) i = false)
        by (apply Id_eqb_neq; congruence).
      now rewrite E. }
  repeat split; trivial; now apply Hframe.
Qed.

Lemma getOption_after_write_witness :
  UseOptions.getOption (IdNum 5)
    (UseOptions.addOption
       (Some (UiOption.mk (IdNum 5) "Size" "text" None None []))
       [UiOption.mk (IdStr "c0") "Color" "color" (Some 0) (Some true) []])
  = Some (UiOption.mk (IdNum 5) "Size" "text" None None []).
Proof.
  exact (proj1 (getOption_after_write
                  (UiOption.mk (IdNum 5) "Size" "text" None None [])
                  [UiOption.mk (IdStr "c0") "Color" "color" (Some 0)
                     (Some true) []]
                  eq_refl)).
Defined.

(** An option object without a truthy id (none at all, or id 0 or the
    empty string) is ignored by both writers. *)
Lemma writers_ignore_invalid (n : UiOption.t) (s : UseOptions.Store) :
  Js.truthy (UiOption.id n) = false ->
  UseOptions.addOption (Some n) s = s
  /\ UseOptions.updateOption (Some n) s = s.
Proof.
  intro Hf. unfold UseOptions.addOption, UseOptions.updateOption.
  rewrite Hf. now split.
Qed.

(** X10.  The number of options after [addOption] or [updateOption] of a
    valid option object: one more when [getOption] did not find its id,
    the same when it did; an invalid object leaves it as it is. *)
Theorem getOptionsCount_after_write
    (n : UiOption.t) (s : UseOptions.Store) :
  UseOptions.getOptionsCount (UseOptions.addOption (Some n) s)
  = (UseOptions.getOptionsCount s
     + (if Js.truthy (UiOption.id n)
        then match UseOptions.getOption (UiOption.id n) s with
             | Some _ => 0
             | None => 1
             end
        else 0))%nat
  /\ UseOptions.getOptionsCount (UseOptions.updateOption (Some n) s)
     = UseOptions.getOptionsCount (UseOptions.addOption (Some n) s).
Proof.
  destruct (Js.truthy (UiOption.id n)) eqn:Ht.
  - rewrite (updateOption_addOption n s Ht). split; trivial.
    destruct (addOption_upsert n s Ht) as [Habsent Hpresent].
    unfold UseOptions.getOptionsCount.
    destruct (UseOptions.getOption (UiOption.id n) s) eqn:G.
    + assert (Hin : In (UiOption.id n) (map UiOption.id s)).
      { apply find_some in G. destruct G as [Hin E].
        apply Id_eqb_eq in E. rewrite <- E. now apply in_map. }
      rewrite (Hpresent Hin). unfold replace_by_id.
      rewrite length_map. lia.
    + apply getOption_none in G. rewrite (Habsent G), length_app. reflexivity.
  - destruct (writers_ignore_invalid n s Ht) as [-> ->]. split; trivial.
Qed.

(** X11.  [removeOptions]: afterwards [getOption] finds no listed id and
    finds for every other id what it found before; an empty array removes
    nothing; a single id counts as the array of that id; removing the
    same ids again changes nothing; and the number of options drops by the
    number of entries whose id is listed. *)
Theorem removeOptions_lookups
    (idsArray : list Id) (s : UseOptions.Store) :
  (forall i,
      UseOptions.getOption i
        (UseOptions.removeOptions (UseOptions.IdArray idsArray) s)
      = if existsb (Id_eqb i) idsArray then None
        else UseOptions.getOption i s)
  /\ UseOptions.removeOptions (UseOptions.IdArray []) s = s
  /\ (forall i,
        UseOptions.removeOptions (UseOptions.SingleId i) s
        = UseOptions.removeOptions (UseOptions.IdArray [i]) s)
  /\ UseOptions.removeOptions (UseOptions.IdArray idsArray)
       (UseOptions.removeOptions (UseOptions.IdArray idsArray) s)
     = UseOptions.removeOptions (UseOptions.IdArray idsArray) s
  /\ (UseOptions.getOptionsCount
        (UseOptions.removeOptions (UseOptions.IdArray idsArray) s)
      + List.length
          (filter (fun o => existsb (Id_eqb (UiOption.id o)) idsArray) s)
      = UseOptions.getOptionsCount s)%nat.
Proof.
  unfold UseOptions.removeOptions, UseOptions.getOptionsCount.
  destruct idsArray as [|i0 ids].
  - simpl. repeat split; trivial.
    assert (E : filter (fun _ : UiOption.t => false) s = [])
      by (clear; induction s; simpl; trivial).
    rewrite E. simpl. lia.
  - cbv zeta. set (l := i0 :: ids). repeat split; trivial.
    + intro i. apply getOption_filter_out.
    + assert (H : forall p (t : UseOptions.Store),
                 filter p (filter p t) = filter p t).
      { intros p t. induction t as [|o t IH]; simpl; trivial.
        destruct (p o) eqn:E; simpl; rewrite ?E; now rewrite ?IH. }
      apply H.
    + apply (kept_and_dropped (fun o => existsb (Id_eqb (UiOption.id o)) l)).
Qed.

(* ------------------------------------------------------------------ *)
(** ** optionUtils.js: edits on the client *)
(* ------------------------------------------------------------------ *)

Section ClientEdits.

(** The checked state [updateOptionObject] gives the name [v]. *)
Definition kept_checked (original : UiOption.t) (v : string) : bool :=
  match existing original v with
  | Some ev => UiValue.checked ev
  | None => true
  end.

Lemma updateOptionObject_values (original : UiOption.t)
    (optionName : string) (values : list string) (optionType : string) :
  UiOption.values
    (OptionUtils.updateOptionObject original optionName values optionType)
  = map (fun v => UiValue.mk v (kept_checked original v) None) values.
Proof. reflexivity. Qed.

(** Looking a name up among values built from names by a function of the
    name. *)
Lemma find_built (c : string -> bool) (values : list string) (v : string) :
  In v values ->
  find (fun ev => String.eqb (UiValue.name ev) v)
       (map (fun x => UiValue.mk x (c x) None) values)
  = Some (UiValue.mk v (c v) None).
Proof.
  induction values as [|x xs IH]; simpl; [intros []|].
  intro Hin. destruct (String.eqb_spec x v) as [->|Hne]; trivial.
  apply IH. destruct Hin; congruence.
Qed.

Lemma find_unique_name (vs : list UiValue.t) (v : UiValue.t) :
  NoDup (map UiValue.name vs) -> In v vs ->
  find (fun ev => String.eqb (UiValue.name ev) (UiValue.name v)) vs = Some v.
Proof.
  induction vs as [|x xs IH]; simpl; [intros _ []|].
  intros Hnd Hin. apply NoDup_cons_iff in Hnd. destruct Hnd as [Hx Hxs].
  destruct (String.eqb_spec (UiValue.name x) (UiValue.name v)) as [E|E].
  - destruct Hin as [->|Hin]; trivial.
    exfalso. apply Hx. rewrite E. now apply in_map.
  - destruct Hin as [->|Hin]; [congruence|]. now apply IH.
Qed.

End ClientEdits.

(** X12.  Applying the same edit again changes nothing: the result of
    [updateOptionObject] is a fixed point of that edit, for any list of
    value names (repeated names included). *)
Theorem updateOptionObject_idempotent
    (original : UiOption.t) (optionName : string) (values : list string)
    (optionType : string) :
  OptionUtils.updateOptionObject
    (OptionUtils.updateOptionObject original optionName values optionType)
    optionName values optionType
  = OptionUtils.updateOptionObject original optionName values optionType.
Proof.
  unfold OptionUtils.updateOptionObject.
  cbn [UiOption.id UiOption.position UiOption.isRequired UiOption.values].
  f_equal. apply map_ext_in. intros v Hv. f_equal.
  change (map _ values)
    with (map (fun x => UiValue.mk x (kept_checked original x) None) values).
  now rewrite (find_built (kept_checked original) values v Hv).
Qed.

(** X13.  An edit that keeps the name, the type and the value names of
    an option whose value names are distinct keeps the id, position and
    isRequired and every value's name and checked state, in order; what it
    drops is the position of every value. *)
Theorem updateOptionObject_unchanged_edit (o : UiOption.t) :
  NoDup (map UiValue.name (UiOption.values o)) ->
  UiOption.id (OptionUtils.updateOptionObject o (UiOption.name o)
                 (map UiValue.name (UiOption.values o)) (UiOption.type o))
    = UiOption.id o
  /\ UiOption.position
       (OptionUtils.updateOptionObject o (UiOption.name o)
          (map UiValue.name (UiOption.values o)) (UiOption.type o))
     = UiOption.position o
  /\ UiOption.isRequired
       (OptionUtils.updateOptionObject o (UiOption.name o)
          (map UiValue.name (UiOption.values o)) (UiOption.type o))
     = UiOption.isRequired o
  /\ UiOption.values
       (OptionUtils.updateOptionObject o (UiOption.name o)
          (map UiValue.name (UiOption.values o)) (UiOption.type o))
     = map (fun v => UiValue.mk (UiValue.name v) (UiValue.checked v) None)
           (UiOption.values o).
Proof.
  intro Hnd. repeat split.
  rewrite updateOptionObject_values, map_map.
  apply map_ext_in. intros v Hv. f_equal.
  unfold kept_checked, existing.
  now rewrite (find_unique_name (UiOption.values o) v Hnd Hv).
Qed.

Lemma updateOptionObject_unchanged_edit_witness :
  UiOption.values
    (OptionUtils.updateOptionObject
       (UiOption.mk (IdStr "c0") "Color" "color" (Some 2) (Some true)
          [UiValue.mk "Red" false (Some 0); UiValue.mk "Blue" true (Some 1)])
       "Color" ["Red"; "Blue"]%string "color")
  = [UiValue.mk "Red" false None; UiValue.mk "Blue" true None].
Proof.
  refine (proj2 (proj2 (proj2
            (updateOptionObject_unchanged_edit
               (UiOption.mk (IdStr "c0") "Color" "color" (Some 2) (Some true)
                  [UiValue.mk "Red" false (Some 0);
                   UiValue.mk "Blue" true (Some 1)])
               _)))).
  simpl. repeat (constructor; [simpl; intuition discriminate|]). constructor.
Defined.

(** X14.  Editing an option that [createOptionObject] has just built is
    the same as building it with the new name, value names and type at
    the same instant: all its values are checked again. *)
Theorem updateOptionObject_after_create
    (now : Z) (name name' : string) (values values' : list string)
    (type type' : string) :
  OptionUtils.updateOptionObject
    (OptionUtils.createOptionObject now name values type)
    name' values' type'
  = OptionUtils.createOptionObject now name' values' type'.
Proof.
  unfold OptionUtils.updateOptionObject, OptionUtils.createOptionObject.
  cbn [UiOption.id UiOption.position UiOption.isRequired UiOption.values].
  f_equal. apply map_ext. intro v. f_equal.
  destruct (find _ _) as [ev|] eqn:F; trivial.
  apply find_some in F. destruct F as [Hin _].
  apply in_map_iff in Hin. now destruct Hin as [x [<- _]].
Qed.

(* ------------------------------------------------------------------ *)
(** ** OptionItem.jsx and preview.jsx: what the views show after a toggle *)
(* ------------------------------------------------------------------ *)

Section Views.
Import UseOptions.

Lemma some_checked_set_all (c : bool) (o : UiOption.t) :
  UiOption.values o <> [] ->
  Js.some UiValue.checked (UiOption.values (set_all c o)) = c.
Proof.
  unfold Js.some. simpl.
  destruct (UiOption.values o) as [|v vs]; [congruence|intros _].
  destruct c; simpl; trivial.
  induction vs as [|x xs IH]; simpl; trivial.
Qed.

Lemma activeCount_set_all (c : bool) (o : UiOption.t) :
  OptionItem.activeCount (set_all c o)
  = if c then List.length (UiOption.values o) else 0%nat.
Proof.
  unfold OptionItem.activeCount. simpl.
  induction (UiOption.values o) as [|v vs IH]; simpl.
  - now destruct c.
  - destruct c; simpl; now rewrite IH.
Qed.

(** The active count when exactly the values called [n] are flipped and
    names are distinct. *)
Lemma active_after_flip (n : string) (vs : list UiValue.t) (v : UiValue.t) :
  NoDup (map UiValue.name vs) -> In v vs -> UiValue.name v = n ->
  List.length (filter UiValue.checked (map (flip_named n) vs))
  = if UiValue.checked v
    then Nat.pred (List.length (filter UiValue.checked vs))
    else S (List.length (filter UiValue.checked vs)).
Proof.
  intros Hnd Hin Hn. induction vs as [|x xs IH]; [destruct Hin|].
  simpl in Hnd. apply NoDup_cons_iff in Hnd. destruct Hnd as [Hx Hxs].
  destruct Hin as [->|Hin].
  - assert (Hrest : map (flip_named n) xs = xs).
    { apply flip_named_other. intros y Hy E. apply Hx.
      rewrite Hn, <- E. now apply in_map. }
    simpl. rewrite Hrest. unfold flip_named at 1.
    rewrite Hn, String.eqb_refl. simpl.
    now destruct (UiValue.checked v).
  - specialize (IH Hxs Hin).
    assert (Hxn : UiValue.name x <> n).
    { intro E. apply Hx. rewrite E, <- Hn. now apply in_map. }
    simpl. unfold flip_named at 1.
    destruct (String.eqb_spec (UiValue.name x) n); [congruence|].
    destruct (UiValue.checked x) eqn:Cx; simpl; rewrite IH; trivial.
    destruct (UiValue.checked v) eqn:Cv; trivial.
    assert (Hpos : (0 < List.length (filter UiValue.checked xs))%nat).
    { assert (In v (filter UiValue.checked xs)) by now apply filter_In.
      destruct (filter UiValue.checked xs); [contradiction|simpl; lia]. }
    lia.
Qed.

End Views.

(** X15.  After [handleToggleAllValues] on an option that has values, the
    "Select All" checkbox of its list item is never indeterminate and
    shows the opposite of what it showed; the item reads "0 of m values
    active" if all were checked and "m of m" otherwise; and the storefront
    preview lists the option exactly when not all its values were
    checked before. *)
Theorem selectAll_after_toggle
    (optionId : Id) (s : UseOptions.Store) (i : nat) (o : UiOption.t) :
  nth_error s i = Some o ->
  UiOption.id o = optionId ->
  UiOption.values o <> [] ->
  exists o',
    nth_error (UseOptions.handleToggleAllValues optionId s) i = Some o'
    /\ OptionItem.selectAllIndeterminate o' = false
    /\ OptionItem.selectAllChecked o' = negb (OptionItem.selectAllChecked o)
    /\ OptionItem.activeCount o'
       = (if OptionItem.selectAllChecked o then 0%nat
          else List.length (UiOption.values o))
    /\ (In o' (Preview.activeOptions
                 (UseOptions.handleToggleAllValues optionId s))
        <-> OptionItem.selectAllChecked o = false).
Proof.
  intros Hi Hid Hne.
  assert (Hnth : nth_error (UseOptions.handleToggleAllValues optionId s) i
                 = Some (toggled_once o)).
  { rewrite handleToggleAllValues_nth, Hi. simpl.
    apply Id_eqb_eq in Hid. now rewrite Hid. }
  exists (toggled_once o). split; [exact Hnth|].
  unfold toggled_once, OptionItem.selectAllIndeterminate,
    OptionItem.selectAllChecked.
  fold (all_checked o). fold (all_checked (set_all (negb (all_checked o)) o)).
  rewrite (all_checked_set_all _ o Hne), (some_checked_set_all _ o Hne).
  rewrite activeCount_set_all.
  repeat split.
  - now destruct (all_checked o).
  - now destruct (all_checked o).
  - intro Hin. unfold Preview.activeOptions in Hin.
    apply filter_In in Hin. destruct Hin as [_ Hsome].
    rewrite (some_checked_set_all _ o Hne) in Hsome.
    now destruct (all_checked o).
  - intro Hall. unfold Preview.activeOptions. apply filter_In. split.
    + apply nth_error_In with (n := i). exact Hnth.
    + rewrite (some_checked_set_all _ o Hne). now rewrite Hall.
Qed.

Lemma selectAll_after_toggle_witness :
  exists o',
    nth_error
      (UseOptions.handleToggleAllValues (IdStr "c0")
         [UiOption.mk (IdStr "c0") "Color" "color" (Some 0) (Some true)
            [UiValue.mk "Red" true (Some 0);
             UiValue.mk "Blue" false (Some 1)]]) 0
    = Some o'
    /\ OptionItem.selectAllIndeterminate o' = false
    /\ OptionItem.activeCount o' = 2%nat.
Proof.
  destruct (selectAll_after_toggle (IdStr "c0")
              [UiOption.mk (IdStr "c0") "Color" "color" (Some 0) (Some true)
                 [UiValue.mk "Red" true (Some 0);
                  UiValue.mk "Blue" false (Some 1)]]
              0 _ eq_refl eq_refl)
    as (o' & H1 & H2 & _ & H4 & _).
  - discriminate.
  - exists o'. repeat split; assumption.
Defined.

(** X16.  In an option whose value names are distinct, toggling one of
    its values changes "n of m values active" by exactly one: down when
    the value was checked, up when it was not. *)
Theorem activeCount_after_toggle
    (optionId : Id) (s : UseOptions.Store) (i : nat) (o : UiOption.t)
    (v : UiValue.t) :
  nth_error s i = Some o ->
  UiOption.id o = optionId ->
  NoDup (map UiValue.name (UiOption.values o)) ->
  In v (UiOption.values o) ->
  exists o',
    nth_error
      (UseOptions.handleToggleValueChecked optionId (UiValue.name v) s) i
    = Some o'
    /\ List.length (UiOption.values o') = List.length (UiOption.values o)
    /\ OptionItem.activeCount o'
       = if UiValue.checked v
         then Nat.pred (OptionItem.activeCount o)
         else S (OptionItem.activeCount o).
Proof.
  intros Hi Hid Hnd Hv.
  unfold UseOptions.handleToggleValueChecked.
  rewrite nth_error_map, Hi. simpl.
  apply Id_eqb_eq in Hid. rewrite Hid.
  eexists. split; [reflexivity|].
  fold (flip_named (UiValue.name v)). simpl. split.
  - apply length_map.
  - unfold OptionItem.activeCount. simpl.
    now apply active_after_flip.
Qed.

Lemma activeCount_after_toggle_witness :
  exists o',
    nth_error
      (UseOptions.handleToggleValueChecked (IdStr "c0") "Blue"
         [UiOption.mk (IdStr "c0") "Color" "color" (Some 0) (Some true)
            [UiValue.mk "Red" true (Some 0);
             UiValue.mk "Blue" false (Some 1)]]) 0
    = Some o'
    /\ OptionItem.activeCount o' = 2%nat.
Proof.
  destruct (activeCount_after_toggle (IdStr "c0")
              [UiOption.mk (IdStr "c0") "Color" "color" (Some 0) (Some true)
                 [UiValue.mk "Red" true (Some 0);
                  UiValue.mk "Blue" false (Some 1)]]
              0 _ (UiValue.mk "Blue" false (Some 1)) eq_refl eq_refl)
    as (o' & H1 & _ & H3).
  - simpl. repeat (constructor; [simpl; intuition discriminate|]).
    constructor.
  - simpl. right. now left.
  - exists o'. split; assumption.
Defined.

(* ------------------------------------------------------------------ *)
(** ** The modals: what a form can hold and what it submits *)
(* ------------------------------------------------------------------ *)

Section Forms.

(** A list of value names a form may hold: distinct, none empty. *)
Definition proper_values (values : list string) : Prop :=
  NoDup values /\ ~ In ""%string values.

Definition select_entry (type : string) : Prop :=
  exists t, type = type_value t.

Lemma truthy_string_nonempty (s : string) :
  Js.truthy s = true <-> s <> ""%string.
Proof.
  unfold Js.truthy, Js.Truthy_string.
  destruct (String.eqb_spec s ""); simpl; split; congruence.
Qed.

Lemma includes_false (l : list string) (s : string) :
  Js.includes l s = false <-> ~ In s l.
Proof.
  rewrite <- includes_In. destruct (Js.includes l s); split; congruence.
Qed.

(** Appending the typed value, as both modals do. *)
Lemma proper_values_add (values : list string) (v : string) :
  proper_values values ->
  Js.truthy v && negb (Js.includes values v) = true ->
  proper_values (values ++ [v]).
Proof.
  intros [Hnd Hne] Hguard. apply andb_true_iff in Hguard.
  destruct Hguard as [Hv Hnew].
  apply truthy_string_nonempty in Hv.
  apply negb_true_iff, includes_false in Hnew.
  split.
  - apply NoDup_app; trivial.
    + constructor; [intros []|constructor].
    + intros x Hx [<-|[]]. contradiction.
  - intro Hin. apply in_app_or in Hin.
    destruct Hin as [Hin|[Hin|[]]]; [contradiction|congruence].
Qed.

(** Clicking a badge, as both modals do. *)
Lemma proper_values_remove (values : list string) (v : string) :
  proper_values values ->
  proper_values (filter (fun value => negb (String.eqb value v)) values).
Proof.
  intros [Hnd Hne]. split.
  - now apply NoDup_filter.
  - intro Hin. apply filter_In in Hin. tauto.
Qed.

Definition add_form_ok (st : AddOptionModal.State) : Prop :=
  proper_values (AddOptionModal.optionValues st)
  /\ select_entry (AddOptionModal.optionType st).

Lemma add_form_initial : add_form_ok AddOptionModal.initial.
Proof.
  split; [split; [constructor|intros []]|now exists TextInput].
Qed.

Lemma add_form_step (e : AddOptionModal.Event) (st : AddOptionModal.State) :
  add_form_ok st -> add_form_ok (AddOptionModal.step e st).
Proof.
  intros [Hv Ht].
  destruct e as [s|s|t| |v| |]; simpl; try (now split).
  - split; trivial. now exists t.
  - unfold AddOptionModal.addValueToList.
    destruct (Js.truthy (AddOptionModal.currentValue st)
              && negb (Js.includes (AddOptionModal.optionValues st)
                                   (AddOptionModal.currentValue st))) eqn:G.
    + split; trivial. simpl. now apply proper_values_add.
    + now split.
  - split; trivial. simpl. now apply proper_values_remove.
  - unfold AddOptionModal.handleSubmit.
    destruct (Js.truthy (AddOptionModal.optionName st)
              && Nat.ltb 0 (List.length (AddOptionModal.optionValues st))).
    + apply add_form_initial.
    + now split.
  - apply add_form_initial.
Qed.

Lemma add_form_run (es : list AddOptionModal.Event) :
  add_form_ok (AddOptionModal.run es).
Proof.
  unfold AddOptionModal.run.
  assert (H : forall st, add_form_ok st ->
                add_form_ok (fold_left (fun st e => AddOptionModal.step e st)
                                       es st)).
  { induction es as [|e es IH]; simpl; intros st Hst; trivial.
    apply IH. now apply add_form_step. }
  apply H, add_form_initial.
Qed.

(** What [handleSubmit] of the Add modal hands over, from a form that is
    in order. *)
Lemma add_form_submit (st : AddOptionModal.State) (d : SubmitData.t)
    (st' : AddOptionModal.State) :
  add_form_ok st ->
  AddOptionModal.handleSubmit st = (Some d, st') ->
  SubmitData.optionName d <> ""%string
  /\ SubmitData.values d <> []
  /\ proper_values (SubmitData.values d)
  /\ select_entry (SubmitData.optionType d)
  /\ st' = AddOptionModal.initial.
Proof.
  intros [Hv Ht]. unfold AddOptionModal.handleSubmit.
  destruct (Js.truthy (AddOptionModal.optionName st)
            && Nat.ltb 0 (List.length (AddOptionModal.optionValues st)))
    eqn:G; [|discriminate].
  intro H. inversion H; subst; clear H. simpl.
  apply andb_true_iff in G. destruct G as [Hn Hl].
  apply truthy_string_nonempty in Hn. apply Nat.ltb_lt in Hl.
  repeat split; trivial; try apply Hv.
  intro E. rewrite E in Hl. simpl in Hl. lia.
Qed.

Definition edit_form_ok (o : UiOption.t) (st : EditOptionModal.State)
  : Prop :=
  EditOptionModal.editOptionType st = UiOption.type o
  /\ (forall v, In v (EditOptionModal.editOptionValues st) ->
                In v (map UiValue.name (UiOption.values o))
                \/ v <> ""%string)
  /\ (NoDup (map UiValue.name (UiOption.values o)) ->
      NoDup (EditOptionModal.editOptionValues st)).

Lemma edit_form_step (o : UiOption.t) (e : EditOptionModal.Event)
    (st : EditOptionModal.State) :
  edit_form_ok o st -> edit_form_ok o (EditOptionModal.step e st).
Proof.
  intros (Ht & Hv & Hnd).
  destruct e as [s|s| |v]; simpl; try (now repeat split).
  - unfold EditOptionModal.addEditValueToList.
    destruct (Js.truthy (EditOptionModal.editCurrentValue st)
              && negb (Js.includes (EditOptionModal.editOptionValues st)
                                   (EditOptionModal.editCurrentValue st)))
      eqn:G; [|now repeat split].
    apply andb_true_iff in G. destruct G as [Hc Hnew].
    apply truthy_string_nonempty in Hc.
    apply negb_true_iff, includes_false in Hnew.
    repeat split; trivial; simpl.
    + intros x Hx. apply in_app_or in Hx.
      destruct Hx as [Hx|[<-|[]]]; auto.
    + intro H. apply NoDup_app; auto.
      * constructor; [intros []|constructor].
      * intros x Hx [<-|[]]. contradiction.
  - repeat split; trivial; simpl.
    + intros x Hx. apply filter_In in Hx. now apply Hv.
    + intro H. apply NoDup_filter. auto.
Qed.

Lemma edit_form_run (o : UiOption.t) (es : list EditOptionModal.Event) :
  edit_form_ok o (EditOptionModal.run o es).
Proof.
  unfold EditOptionModal.run.
  assert (H : forall st, edit_form_ok o st ->
                edit_form_ok o
                  (fold_left (fun st e => EditOptionModal.step e st) es st)).
  { induction es as [|e es IH]; simpl; intros st Hst; trivial.
    apply IH. now apply edit_form_step. }
  apply H. simpl. repeat split; auto.
Qed.

End Forms.

(** X17.  Whatever the user does in the Add Option modal, from its opening
    on, the value list of the form never holds the same value twice nor
    an empty value, and its type is one of the four select entries.  When
    [handleSubmit] calls [onSubmit], the payload has a non-empty name and
    at least one value, with these same properties, and the form is reset;
    when it does not, the name or the list is empty and the form is left
    as it is. *)
Theorem addOptionModal_form (es : list AddOptionModal.Event) :
  proper_values (AddOptionModal.optionValues (AddOptionModal.run es))
  /\ select_entry (AddOptionModal.optionType (AddOptionModal.run es))
  /\ match AddOptionModal.handleSubmit (AddOptionModal.run es) with
     | (Some d, st') =>
         SubmitData.optionName d <> ""%string
         /\ SubmitData.values d <> []
         /\ proper_values (SubmitData.values d)
         /\ select_entry (SubmitData.optionType d)
         /\ st' = AddOptionModal.initial
     | (None, st') =>
         st' = AddOptionModal.run es
         /\ (AddOptionModal.optionName (AddOptionModal.run es) = ""%string
             \/ AddOptionModal.optionValues (AddOptionModal.run es) = [])
     end.
Proof.
  pose proof (add_form_run es) as Hok.
  split; [apply Hok|]. split; [apply Hok|].
  destruct (AddOptionModal.handleSubmit (AddOptionModal.run es))
    as [[d|] st'] eqn:S.
  - now apply (add_form_submit (AddOptionModal.run es)).
  - unfold AddOptionModal.handleSubmit in S.
    destruct (Js.truthy (AddOptionModal.optionName (AddOptionModal.run es)))
      eqn:Hn; simpl in S.
    + destruct (AddOptionModal.optionValues (AddOptionModal.run es))
        as [|v vs] eqn:Hv; simpl in S.
      * inversion S. auto.
      * discriminate.
    + inversion S. split; trivial. left.
      unfold Js.truthy, Js.Truthy_string in Hn.
      apply negb_false_iff in Hn. now apply String.eqb_eq.
Qed.

(** X18.  In the Edit Option modal opened on an option, whatever the user
    does, the type of the form stays the type of that option; every value
    of the form is a value name of the option or non-empty; and the values
    stay distinct if the option's value names are.  A submission carries
    the option's id, the option itself as [originalOption] and its type,
    with a non-empty name and at least one value; without an option being
    edited nothing is ever submitted. *)
Theorem editOptionModal_form
    (o : UiOption.t) (es : list EditOptionModal.Event) :
  EditOptionModal.editOptionType (EditOptionModal.run o es) = UiOption.type o
  /\ (forall v,
        In v (EditOptionModal.editOptionValues (EditOptionModal.run o es)) ->
        In v (map UiValue.name (UiOption.values o)) \/ v <> ""%string)
  /\ (NoDup (map UiValue.name (UiOption.values o)) ->
      NoDup (EditOptionModal.editOptionValues (EditOptionModal.run o es)))
  /\ match EditOptionModal.handleSubmit (Some o) (EditOptionModal.run o es)
     with
     | Some d =>
         EditOptionModal.optionId d = UiOption.id o
         /\ EditOptionModal.originalOption d = o
         /\ EditOptionModal.optionType d = UiOption.type o
         /\ EditOptionModal.optionName d <> ""%string
         /\ EditOptionModal.values d <> []
         /\ EditOptionModal.values d
            = EditOptionModal.editOptionValues (EditOptionModal.run o es)
     | None =>
         EditOptionModal.editOptionName (EditOptionModal.run o es)
           = ""%string
         \/ EditOptionModal.editOptionValues (EditOptionModal.run o es) = []
     end
  /\ EditOptionModal.handleSubmit None (EditOptionModal.run o es) = None.
Proof.
  destruct (edit_form_run o es) as (Ht & Hv & Hnd).
  repeat (split; [assumption|]). split; [|reflexivity].
  unfold EditOptionModal.handleSubmit.
  destruct (Js.truthy (EditOptionModal.editOptionName
                         (EditOptionModal.run o es))) eqn:Hn; simpl.
  - destruct (EditOptionModal.editOptionValues (EditOptionModal.run o es))
      as [|v vs] eqn:E; simpl.
    + now right.
    + apply truthy_string_nonempty in Hn. repeat split; trivial.
      discriminate.
  - left. unfold Js.truthy, Js.Truthy_string in Hn.
    apply negb_false_iff in Hn. now apply String.eqb_eq.
Qed.

(* ------------------------------------------------------------------ *)
(** ** app._index.jsx: [handleProductSelection] *)
(* ------------------------------------------------------------------ *)

Section ProductSelection.

Lemma selected_iff (p : Id) (l : list Id) :
  existsb (Id_eqb p) l = true <-> In p l.
Proof.
  rewrite existsb_exists. split.
  - intros [x [Hx E]]. apply Id_eqb_eq in E. now subst.
  - intro H. exists p. split; trivial. apply Id_eqb_refl.
Qed.

Lemma without_In (p x : Id) (l : list Id) :
  In x (filter (fun id => negb (Id_eqb id p)) l) <-> In x l /\ x <> p.
Proof.
  rewrite filter_In, negb_true_iff, Id_eqb_neq. tauto.
Qed.

Lemma without_absent (p : Id) (l : list Id) :
  ~ In p l -> filter (fun id => negb (Id_eqb id p)) l = l.
Proof.
  induction l as [|x l IH]; simpl; trivial.
  intro H. destruct (Id_eqb x p) eqn:E; simpl.
  - apply Id_eqb_eq in E. subst. tauto.
  - f_equal. apply IH. tauto.
Qed.

Lemma handleProductSelection_In (p x : Id) (l : list Id) :
  In x (Route.handleProductSelection p l)
  <-> (x = p /\ ~ In p l) \/ (x <> p /\ In x l).
Proof.
  unfold Route.handleProductSelection.
  destruct (existsb (Id_eqb p) l) eqn:E.
  - apply selected_iff in E. rewrite without_In. split.
    + intros [H1 H2]. now right.
    + intros [[-> H]|[H1 H2]]; [contradiction|now split].
  - assert (Hn : ~ In p l).
    { intro H. apply selected_iff in H. congruence. }
    rewrite in_app_iff. simpl. split.
    + intros [H|[<-|[]]]; [|now left].
      right. split; trivial. intros ->. contradiction.
    + intros [[-> _]|[_ H]]; auto.
Qed.

Lemma handleProductSelection_NoDup (p : Id) (l : list Id) :
  NoDup l -> NoDup (Route.handleProductSelection p l).
Proof.
  intro Hnd. unfold Route.handleProductSelection.
  destruct (existsb (Id_eqb p) l) eqn:E.
  - now apply NoDup_filter.
  - apply NoDup_app; trivial.
    + constructor; [intros []|constructor].
    + intros x Hx [<-|[]]. apply selected_iff in Hx. congruence.
Qed.

End ProductSelection.

(** X19.  [handleProductSelection productId] flips whether [productId] is
    selected and nothing else: every other id is selected afterwards
    exactly if it was before.  A selection without repeats stays without
    repeats, and selecting and deselecting (or the reverse) gives back the
    same set of products: the same list when the product was not selected,
    a reordering of it when it was. *)
Theorem handleProductSelection_toggles (productId : Id) (prev : list Id) :
  (In productId (Route.handleProductSelection productId prev)
   <-> ~ In productId prev)
  /\ (forall i,
        i <> productId ->
        (In i (Route.handleProductSelection productId prev) <-> In i prev))
  /\ (NoDup prev -> NoDup (Route.handleProductSelection productId prev))
  /\ (~ In productId prev ->
      Route.handleProductSelection productId
        (Route.handleProductSelection productId prev) = prev)
  /\ (NoDup prev ->
      Permutation prev
        (Route.handleProductSelection productId
           (Route.handleProductSelection productId prev))).
Proof.
  split; [|split; [|split; [|split]]].
  - rewrite handleProductSelection_In. tauto.
  - intros i Hi. rewrite handleProductSelection_In. tauto.
  - apply handleProductSelection_NoDup.
  - intro Hn. unfold Route.handleProductSelection at 2.
    destruct (existsb (Id_eqb productId) prev) eqn:E.
    + apply selected_iff in E. contradiction.
    + unfold Route.handleProductSelection.
      assert (E2 : existsb (Id_eqb productId) (prev ++ [productId]) = true).
      { apply selected_iff, in_or_app. right. now left. }
      rewrite E2, filter_app, (without_absent _ _ Hn). simpl.
      rewrite Id_eqb_refl. simpl. apply app_nil_r.
  - intro Hnd. apply NoDup_Permutation; trivial.
    + now do 2 apply handleProductSelection_NoDup.
    + intro x. rewrite !handleProductSelection_In.
      destruct (Id_eqb x productId) eqn:E.
      * apply Id_eqb_eq in E. subst.
        assert (D : In productId prev \/ ~ In productId prev).
        { destruct (existsb (Id_eqb productId) prev) eqn:S.
          - left. now apply selected_iff.
          - right. intro H. apply selected_iff in H. congruence. }
        tauto.
      * apply Id_eqb_neq in E. tauto.
Qed.

(* ------------------------------------------------------------------ *)
(** ** shop.server.js: what a create writes, and when *)
(* ------------------------------------------------------------------ *)

Section CreateOptionsRuns.
Import Storage ShopServer.

Definition name_taken (w : World) (shop name : string) : bool :=
  existsb (fun o => String.eqb (VariantOption.shop o) shop
                    && String.eqb (VariantOption.name o) name)
          (variant_options w).

Definition value_names (vals : list (string * Z * bool)) : list string :=
  map (fun '(v, _, _) => v) vals.

(** The run of [createOptions] once the storage call goes through. *)
Lemma createOptions_eq (shop : string) (optionData : OptionData) (w : World) :
  next_call_ok w ->
  createOptions shop optionData w
  = match validate_values
            (Js.mapi value_create
               (Js.default_to (od_values optionData) [])) with
    | None => (Throw validation_error, pop_fault w)
    | Some vals =>
        if name_taken w shop (od_name optionData)
        then (Throw unique_shop_name_error, pop_fault w)
        else if has_dup (value_names vals)
        then (Throw unique_option_value_error, pop_fault w)
        else
          let o := VariantOption.mk (cuid (next_cuid w)) (od_name optionData)
                     (Js.default_to (od_type optionData) "text"%string)
                     (Js.default_to (od_position optionData) 0)
                     (Js.default_to (od_isRequired optionData) true) shop in
          let rows :=
            value_rows (cuid (next_cuid w))
              (map (fun i => cuid (next_cuid w + 1 + i))
                   (seq 0 (List.length vals)))
              vals in
          (Return (OptionWithValues.mk o rows),
           mkWorld (variant_options w ++ [o])
                   (variant_option_values w ++ rows)
                   (next_cuid w + 1 + List.length vals)
                   (tl (faults w)))
    end.
Proof.
  intro Hok.
  unfold createOptions, try_catch, bind, ret, variantOption_create, bind.
  rewrite (engine_ok w Hok).
  destruct (validate_values _) as [vals|]; [|reflexivity].
  unfold name_taken, value_names.
  change (variant_options (pop_fault w)) with (variant_options w).
  destruct (existsb _ (variant_options w)); [reflexivity|].
  destruct (has_dup _); [reflexivity|].
  unfold fresh_cuids, set_tables. simpl.
  now rewrite Nat.add_0_r.
Qed.

(** The run of [createOptions] when the storage call fails. *)
Lemma createOptions_fault (shop : string) (optionData : OptionData)
    (w : World) (msg : string) :
  hd None (faults w) = Some msg ->
  createOptions shop optionData w
  = (Throw (mkError PrismaClientError msg), pop_fault w).
Proof.
  intro Hf.
  unfold createOptions, try_catch, bind, ret, variantOption_create, bind.
  now rewrite (engine_fault w msg Hf).
Qed.

Lemma next_call_cases (w : World) :
  next_call_ok w \/ exists msg, hd None (faults w) = Some msg.
Proof.
  unfold next_call_ok. destruct (hd None (faults w)) as [msg|]; eauto.
Qed.

End CreateOptionsRuns.

(** X20.  [createOptions] is all or nothing, for every input: when it
    throws, both tables are as before the call; when it returns, the
    options table has gained exactly the returned option row and the
    values table exactly the returned values, all owned by that row. *)
Theorem createOptions_all_or_nothing
    (shop : string) (optionData : ShopServer.OptionData)
    (w : Storage.World) :
  match ShopServer.createOptions shop optionData w with
  | (Storage.Throw e, w') =>
      Storage.variant_options w' = Storage.variant_options w
      /\ Storage.variant_option_values w' = Storage.variant_option_values w
  | (Storage.Return u, w') =>
      Storage.variant_options w'
        = Storage.variant_options w ++ [OptionWithValues.row u]
      /\ Storage.variant_option_values w'
         = Storage.variant_option_values w ++ OptionWithValues.values u
      /\ Forall (owned_by (VariantOption.id (OptionWithValues.row u)))
                (OptionWithValues.values u)
      /\ VariantOption.shop (OptionWithValues.row u) = shop
  end.
Proof.
  destruct (next_call_cases w) as [Hok|[msg Hf]].
  - rewrite (createOptions_eq shop optionData w Hok).
    destruct (Storage.validate_values _) as [vals|]; [|now split].
    destruct (name_taken w shop _); [now split|].
    destruct (Storage.has_dup _); [now split|].
    cbv zeta. simpl. repeat split. apply value_rows_owned.
  - rewrite (createOptions_fault shop optionData w msg Hf). now split.
Qed.

(** X21.  [updateOptions] on an id that names no option never returns:
    it throws, whatever the data, and the option rows are as before; with
    referential integrity (every stored value is owned by a stored
    option) the values are as before too. *)
Theorem updateOptions_unknown_id
    (optionId : string) (optionData : ShopServer.OptionData)
    (w : Storage.World) :
  find (fun o => String.eqb (VariantOption.id o) optionId)
       (Storage.variant_options w) = None ->
  exists e w',
    ShopServer.updateOptions optionId optionData w = (Storage.Throw e, w')
    /\ Storage.variant_options w' = Storage.variant_options w
    /\ ((forall v, In v (Storage.variant_option_values w) ->
                   exists o, In o (Storage.variant_options w)
                             /\ VariantOption.id o
                                = VariantOptionValue.variantOptionId v) ->
        Storage.variant_option_values w' = Storage.variant_option_values w).
Proof.
  intro Hnone.
  unfold ShopServer.updateOptions, Storage.try_catch, Storage.bind,
    Storage.throw, Storage.ret.
  rewrite variantOptionValue_deleteMany_eq.
  destruct (hd None (Storage.faults w)) as [msg|] eqn:Hf.
  - eexists _, _. split; [reflexivity|]. now split.
  - match goal with
    | |- context [Storage.variantOption_update ?i ?n ?t ?v ?w1] =>
        destruct (Storage.variantOption_update i n t v w1)
          as [[u|e] w'] eqn:U
    end.
    + apply variantOption_update_return in U.
      destruct U as (old & rows & _ & Hfind & _). simpl in Hfind.
      congruence.
    + apply variantOption_update_throw in U. simpl in U.
      destruct U as [Hos Hvs].
      exists e, w'. split; [reflexivity|]. split; trivial.
      intro Hfk. rewrite Hvs. unfold Storage.values_not_of.
      rewrite <- (filter_ext_in (fun _ => true)).
      * clear. induction (Storage.variant_option_values w); simpl;
          congruence.
      * intros v Hv. symmetry. apply negb_true_iff.
        apply String.eqb_neq. intro E.
        destruct (Hfk v Hv) as [o [Ho Hid]].
        apply (find_none _ _ Hnone) in Ho.
        rewrite Hid, E, String.eqb_refl in Ho. discriminate.
Qed.

Lemma updateOptions_unknown_id_witness :
  exists e w',
    ShopServer.updateOptions "nope"
      (ShopServer.mkOptionData "Size" None None None
         (Some [Storage.Raw "S"]))
      color_and_size
    = (Storage.Throw e, w')
    /\ Storage.variant_options w' = Storage.variant_options color_and_size.
Proof.
  destruct (updateOptions_unknown_id "nope"
              (ShopServer.mkOptionData "Size" None None None
                 (Some [Storage.Raw "S"]))
              color_and_size eq_refl)
    as (e & w' & H1 & H2 & _).
  exists e, w'. now split.
Defined.

(* ------------------------------------------------------------------ *)
(** ** shop.server.js: what the four operations keep *)
(* ------------------------------------------------------------------ *)

Section StorageInvariants.
Import Storage ShopServer.

(** Referential integrity: every stored value is owned by a stored
    option. *)
Definition no_orphans (w : World) : Prop :=
  forall v, In v (variant_option_values w) ->
            exists o, In o (variant_options w)
                      /\ VariantOption.id o
                         = VariantOptionValue.variantOptionId v.

Lemma no_orphans_same_tables (w w' : World) :
  variant_options w' = variant_options w ->
  variant_option_values w' = variant_option_values w ->
  no_orphans w -> no_orphans w'.
Proof. unfold no_orphans. intros -> ->. trivial. Qed.

Lemma no_orphans_fewer_values (w w' : World) :
  map VariantOption.id (variant_options w')
    = map VariantOption.id (variant_options w) ->
  incl (variant_option_values w') (variant_option_values w) ->
  no_orphans w -> no_orphans w'.
Proof.
  unfold no_orphans. intros Hos Hvs H v Hv.
  destruct (H v (Hvs v Hv)) as [o [Ho Hid]].
  assert (Hin : In (VariantOption.id o)
                   (map VariantOption.id (variant_options w')))
    by (rewrite Hos; now apply in_map).
  apply in_map_iff in Hin. destruct Hin as [o' [E Ho']].
  exists o'. split; trivial. congruence.
Qed.

(** The tables after any run of [updateOptions]. *)
Lemma updateOptions_world (optionId : string) (optionData : OptionData)
    (w : World) :
  match updateOptions optionId optionData w with
  | (Throw e, w') =>
      variant_options w' = variant_options w
      /\ incl (variant_option_values w') (variant_option_values w)
  | (Return u, w') =>
      In optionId (map VariantOption.id (variant_options w))
      /\ map VariantOption.id (variant_options w')
         = map VariantOption.id (variant_options w)
      /\ exists rows,
           Forall (owned_by optionId) rows
           /\ variant_option_values w'
              = values_not_of optionId (variant_option_values w) ++ rows
  end.
Proof.
  unfold updateOptions, try_catch, bind, throw, ret.
  rewrite variantOptionValue_deleteMany_eq.
  destruct (hd None (faults w)) as [msg|] eqn:Hf.
  - simpl. split; trivial. apply incl_refl.
  - match goal with
    | |- context [variantOption_update ?i ?n ?t ?v ?w1] =>
        destruct (variantOption_update i n t v w1) as [[u|e] w'] eqn:U
    end.
    + apply variantOption_update_return in U.
      destruct U as (old & rows & _ & Hfind & Hrow & Hown & _ & _ & Hvs & Hos).
      simpl in Hfind, Hvs, Hos. split; [|split].
      * apply find_some in Hfind. destruct Hfind as [Hin E].
        apply String.eqb_eq in E. rewrite <- E. now apply in_map.
      * rewrite Hos, map_map. apply map_ext. intro r.
        destruct (String.eqb_spec (VariantOption.id r) optionId) as [E|E];
          trivial.
        now rewrite Hrow.
      * now exists rows.
    + apply variantOption_update_throw in U. simpl in U.
      destruct U as [Hos Hvs]. split; trivial.
      rewrite Hvs. intros v Hv. unfold values_not_of in Hv.
      now apply filter_In in Hv.
Qed.

(** The tables after any run of [deleteOptions]: untouched, or without
    the options selected by id and shop and without their values. *)
Lemma deleteOptions_world (optionIds : OptionIds) (shop : option string)
    (w : World) :
  (variant_options (snd (deleteOptions optionIds shop w)) = variant_options w
   /\ variant_option_values (snd (deleteOptions optionIds shop w))
      = variant_option_values w)
  \/ exists s,
       shop = Some s
       /\ variant_options (snd (deleteOptions optionIds shop w))
          = filter (fun o => negb (in_ids_and_shop (idsArray_of optionIds)
                                                   s o))
                   (variant_options w)
       /\ variant_option_values (snd (deleteOptions optionIds shop w))
          = filter (fun v =>
                      negb (Js.includes
                              (map VariantOption.id
                                   (selected w (idsArray_of optionIds) s))
                              (VariantOptionValue.variantOptionId v)))
                   (variant_option_values w).
Proof.
  unfold deleteOptions, try_catch. rewrite deleteOptions_try_ids.
  destruct (idsArray_of optionIds) as [|i l] eqn:Eids.
  - left. now split.
  - destruct (shop_missing shop) eqn:Hs.
    + left. unfold deleteOptions_try. simpl. rewrite Hs. now split.
    + apply shop_missing_false in Hs. destruct Hs as [s [-> Hs]].
      rewrite (deleteOptions_try_eq w (i :: l) s) by (trivial; discriminate).
      destruct (hd None (faults w)) as [msg|]; [left; now split|].
      destruct (Nat.eqb _ _); [|left; now split].
      destruct (hd None (faults (pop_fault w))) as [msg|];
        [left; now split|].
      right. exists s. now repeat split.
Qed.

Lemma no_orphans_after_delete (idsArray : list string) (s : string)
    (w w' : World) :
  variant_options w'
    = filter (fun o => negb (in_ids_and_shop idsArray s o))
             (variant_options w) ->
  variant_option_values w'
    = filter (fun v =>
                negb (Js.includes
                        (map VariantOption.id (selected w idsArray s))
                        (VariantOptionValue.variantOptionId v)))
             (variant_option_values w) ->
  no_orphans w -> no_orphans w'.
Proof.
  unfold no_orphans. intros -> -> H v Hv.
  apply filter_In in Hv. destruct Hv as [Hv Hkeep].
  destruct (H v Hv) as [o [Ho Hid]].
  exists o. split; trivial. apply filter_In. split; trivial.
  destruct (in_ids_and_shop idsArray s o) eqn:E; trivial.
  exfalso. apply negb_true_iff in Hkeep.
  assert (T : Js.includes (map VariantOption.id (selected w idsArray s))
                          (VariantOptionValue.variantOptionId v) = true).
  { apply includes_In. rewrite <- Hid. apply in_map.
    unfold selected. apply filter_In. now split. }
  congruence.
Qed.

End StorageInvariants.

(** X22.  No operation of the persistence layer ever leaves an orphaned
    value: if every stored value is owned by a stored option before a call
    of [createOptions], [getOptions], [updateOptions] or [deleteOptions],
    then so it is after the call, whether the call returns or throws. *)
Theorem persistence_keeps_no_orphans
    (shop optionId : string) (optionData : ShopServer.OptionData)
    (optionIds : ShopServer.OptionIds) (shop' : option string)
    (w : Storage.World) :
  no_orphans w ->
  no_orphans (snd (ShopServer.createOptions shop optionData w))
  /\ no_orphans (snd (ShopServer.getOptions shop w))
  /\ no_orphans (snd (ShopServer.updateOptions optionId optionData w))
  /\ no_orphans (snd (ShopServer.deleteOptions optionIds shop' w)).
Proof.
  intro H. split; [|split; [|split]].
  - destruct (next_call_cases w) as [Hok|[msg Hf]].
    + rewrite (createOptions_eq shop optionData w Hok).
      destruct (Storage.validate_values _) as [vals|]; [|exact H].
      destruct (name_taken w shop _); [exact H|].
      destruct (Storage.has_dup _); [exact H|].
      cbv zeta. intros v Hv. simpl in Hv |- *.
      apply in_app_or in Hv. destruct Hv as [Hv|Hv].
      * destruct (H v Hv) as [o [Ho Hid]]. exists o. split; trivial.
        apply in_or_app. now left.
      * eexists. split; [apply in_or_app; right; now left|].
        simpl. symmetry.
        exact (proj1 (Forall_forall _ _) (value_rows_owned _ _ _) v Hv).
    + rewrite (createOptions_fault shop optionData w msg Hf). exact H.
  - unfold ShopServer.getOptions, Storage.try_catch,
      Storage.variantOption_findMany_shop, Storage.bind, Storage.engine.
    destruct (hd None (Storage.faults w)); exact H.
  - pose proof (updateOptions_world optionId optionData w) as U.
    destruct (ShopServer.updateOptions optionId optionData w) as [[u|e] w'].
    + destruct U as (Hin & Hos & rows & Hown & Hvs). simpl.
      intros v Hv. rewrite Hvs in Hv. apply in_app_or in Hv.
      assert (Hids : forall i,
                 In i (map VariantOption.id (Storage.variant_options w)) ->
                 exists o, In o (Storage.variant_options w')
                           /\ VariantOption.id o = i).
      { intros i Hi. rewrite <- Hos in Hi. apply in_map_iff in Hi.
        destruct Hi as [o [E Ho]]. now exists o. }
      destruct Hv as [Hv|Hv].
      * unfold Storage.values_not_of in Hv. apply filter_In in Hv.
        destruct (H v (proj1 Hv)) as [o [Ho Hid]].
        apply Hids. rewrite <- Hid. now apply in_map.
      * rewrite (proj1 (Forall_forall _ _) Hown v Hv). now apply Hids.
    + destruct U as [Hos Hvs]. simpl.
      apply (no_orphans_fewer_values w w'); trivial. now rewrite Hos.
  - destruct (deleteOptions_world optionIds shop' w)
      as [[Hos Hvs]|[s (_ & Hos & Hvs)]].
    + now apply (no_orphans_same_tables w).
    + now apply (no_orphans_after_delete (idsArray_of optionIds) s w).
Qed.

Lemma persistence_keeps_no_orphans_witness :
  no_orphans
    (snd (ShopServer.deleteOptions (ShopServer.OneId "c0")
            (Some "shopX"%string) color_and_size)).
Proof.
  refine (proj2 (proj2 (proj2
            (persistence_keeps_no_orphans "shopX" "c0"
               (ShopServer.mkOptionData "Color" None None None None)
               (ShopServer.OneId "c0") (Some "shopX"%string)
               color_and_size _)))).
  intros v [<-|[<-|[<-|[]]]].
  - exists (VariantOption.mk "c0" "Color" "text" 0 true "shopX").
    split; [now left|reflexivity].
  - exists (VariantOption.mk "c0" "Color" "text" 0 true "shopX").
    split; [now left|reflexivity].
  - exists (VariantOption.mk "c3" "Size" "text" 1 true "shopX").
    split; [right; now left|reflexivity].
Defined.

(** X23.  [deleteOptions] stays inside the shop it is given: whatever
    ids it is asked to delete and however the call ends, every option
    row of another shop is still stored afterwards, and, ids being the
    primary key, so is every value owned by an option of another shop. *)
Theorem deleteOptions_other_shops_untouched
    (optionIds : ShopServer.OptionIds) (shop : string) (w : Storage.World) :
  primary_key w ->
  (forall o,
      In o (Storage.variant_options w) -> VariantOption.shop o <> shop ->
      In o (Storage.variant_options
              (snd (ShopServer.deleteOptions optionIds (Some shop) w))))
  /\ (forall v o,
        In v (Storage.variant_option_values w) ->
        In o (Storage.variant_options w) ->
        VariantOption.id o = VariantOptionValue.variantOptionId v ->
        VariantOption.shop o <> shop ->
        In v (Storage.variant_option_values
                (snd (ShopServer.deleteOptions optionIds (Some shop) w)))).
Proof.
  intro Hpk.
  destruct (deleteOptions_world optionIds (Some shop) w)
    as [[Hos Hvs]|[s (Es & Hos & Hvs)]].
  - rewrite Hos, Hvs. split; auto.
  - inversion Es; subst s. rewrite Hos, Hvs. split.
    + intros o Ho Hshop. apply filter_In. split; trivial.
      unfold Storage.in_ids_and_shop.
      destruct (String.eqb_spec (VariantOption.shop o) shop); [contradiction|].
      now rewrite andb_false_r.
    + intros v o Hv Ho Hid Hshop. apply filter_In. split; trivial.
      apply negb_true_iff.
      destruct (Js.includes _ _) eqn:E; trivial. exfalso.
      apply includes_In, in_map_iff in E. destruct E as [o' [Hid' Ho']].
      apply selected_In in Ho'. destruct Ho' as (Ho' & _ & Hshop').
      assert (Hbel : belongs w shop (VariantOption.id o) = true).
      { apply belongs_true. exists o'. repeat split; trivial. congruence. }
      apply Hshop. now apply (belongs_shop w shop o Hpk Ho).
Qed.

Lemma deleteOptions_other_shops_untouched_witness :
  In (VariantOption.mk "B" "Size" "text" 0 true "shopY")
     (Storage.variant_options
        (snd (ShopServer.deleteOptions (ShopServer.ManyIds ["A"; "B"]%string)
                (Some "shopX"%string)
                (Storage.mkWorld
                   [VariantOption.mk "A" "Color" "text" 0 true "shopX";
                    VariantOption.mk "B" "Size" "text" 0 true "shopY"]
                   [] 0 [])))).
Proof.
  refine (proj1 (deleteOptions_other_shops_untouched
                   (ShopServer.ManyIds ["A"; "B"]%string) "shopX"
                   (Storage.mkWorld
                      [VariantOption.mk "A" "Color" "text" 0 true "shopX";
                       VariantOption.mk "B" "Size" "text" 0 true "shopY"]
                      [] 0 [])
                   _) _ _ _).
  - unfold primary_key. simpl.
    repeat (constructor; [simpl; intuition discriminate|]). constructor.
  - simpl. right. now left.
  - discriminate.
Defined.

(* ------------------------------------------------------------------ *)
(** ** app._index.jsx: the action *)
(* ------------------------------------------------------------------ *)

Section Action.
Import Storage ShopServer.


Definition missing_fields : string :=
  "Missing required fields: optionName, values, or optionType".

(** The objects the action builds are read back by [createOptions] and
    [updateOptions] as raw strings at their index, unless one is empty. *)
Lemma validate_form_values (i : nat) (values : list string) :
  validate_values
    (Js.mapi_from value_create i
       (Js.mapi_from
          (fun value index =>
             Obj (Some value) (Some (Z.of_nat index)) (Some true))
          i values))
  = if Js.includes values "" then None else Some (raw_columns i values).
Proof.
  revert i. induction values as [|v vs IH]; intro i; trivial.
  cbn [Js.mapi_from validate_values]. rewrite IH.
  unfold value_create at 1. cbn [prop_value prop_position prop_isActive].
  unfold Js.includes. cbn [existsb]. fold (Js.includes vs "").
  unfold Js.truthy at 1, Js.Truthy_string.
  rewrite (String.eqb_sym v "").
  destruct (String.eqb "" v) eqn:E; simpl; trivial.
  destruct (Js.includes vs ""); trivial.
  now destruct (Js.truthy (Z.of_nat i)).
Qed.

Lemma includes_empty_false (values : list string) :
  ~ In ""%string values -> Js.includes values "" = false.
Proof. apply includes_false. Qed.

(** The "Add Option" branch with a complete [optionSet]: the answer is
    [createOptions]' outcome. *)
Lemma action_add_eq (shop name type : string) (values : list string)
    (w : World) :
  name <> ""%string -> type <> ""%string ->
  Route.action shop
    (Route.AddOption
       (Some (Route.mkOptionSetJson (Some name) (Some values) (Some type))))
    w
  = match createOptions shop
            (mkOptionData name (Some type) None None
               (Some (Route.form_values values))) w with
    | (Return u, w') => (Return (Route.OptionSaved u), w')
    | (Throw e, w') => (Return (Route.Failed (message e)), w')
    end.
Proof.
  intros Hn Ht. apply truthy_string_nonempty in Hn, Ht.
  unfold Route.action, Route.respond_failure, try_catch, bind, ret.
  cbn [Route.js_optionName Route.js_values Route.js_optionType].
  rewrite Hn, Ht. cbn [andb]. cbv beta iota.
  now destruct (createOptions _ _ w) as [[u|e] w'].
Qed.

Lemma action_edit_eq (shop optionId : string) (d : SubmitData.t)
    (w : World) :
  Route.action shop (Route.EditOption optionId d) w
  = match updateOptions optionId
            (mkOptionData (SubmitData.optionName d)
               (Some (SubmitData.optionType d)) None None
               (Some (Route.form_values (SubmitData.values d)))) w with
    | (Return u, w') => (Return (Route.OptionSaved u), w')
    | (Throw e, w') => (Return (Route.Failed (message e)), w')
    end.
Proof.
  unfold Route.action, Route.respond_failure, try_catch, bind, ret.
  now destruct (updateOptions _ _ w) as [[u|e] w'].
Qed.

Lemma action_delete_eq (shop : string) (optionIds : OptionIds) (w : World) :
  Route.action shop (Route.DeleteOptions optionIds) w
  = match deleteOptions optionIds (Some shop) w with
    | (Return r, w') =>
        (Return (Route.OptionsDeleted (count r) (deletedOptions r)), w')
    | (Throw e, w') => (Return (Route.Failed (message e)), w')
    end.
Proof.
  unfold Route.action, Route.respond_failure, try_catch, bind, ret.
  now destruct (deleteOptions _ _ w) as [[r|e] w'].
Qed.




End Action.



(** X25.  What the "Add Option" branch refuses, always with a failure
    answer and never with a change to the tables: a request without
    [optionSet], or with a missing or empty name or type or no values
    array, is refused before any storage call; past that, an empty value,
    a repeated value or a name already used in the shop is refused by the
    storage layer, with its message. *)
Theorem action_add_option_refused
    (shop : string) (optionSet : Route.OptionSetJson) (w : Storage.World) :
  Route.action shop (Route.AddOption None) w
    = (Storage.Return (Route.Failed "No optionSet data provided"), w)
  /\ (Js.or_else (Route.js_optionName optionSet) ""%string = ""%string
      \/ Route.js_values optionSet = None
      \/ Js.or_else (Route.js_optionType optionSet) ""%string = ""%string ->
      Route.action shop (Route.AddOption (Some optionSet)) w
      = (Storage.Return (Route.Failed missing_fields), w))
  /\ (forall name values type,
        optionSet = Route.mkOptionSetJson (Some name) (Some values)
                                          (Some type) ->
        name <> ""%string -> type <> ""%string -> next_call_ok w ->
        (In ""%string values ->
         Route.action shop (Route.AddOption (Some optionSet)) w
         = (Storage.Return
              (Route.Failed (Storage.message Storage.validation_error)),
            Storage.pop_fault w))
        /\ (~ In ""%string values -> name_taken w shop name = true ->
            Route.action shop (Route.AddOption (Some optionSet)) w
            = (Storage.Return
                 (Route.Failed
                    (Storage.message Storage.unique_shop_name_error)),
               Storage.pop_fault w))
        /\ (~ In ""%string values -> name_taken w shop name = false ->
            ~ NoDup values ->
            Route.action shop (Route.AddOption (Some optionSet)) w
            = (Storage.Return
                 (Route.Failed
                    (Storage.message Storage.unique_option_value_error)),
               Storage.pop_fault w))).
Proof.
  split; [reflexivity|]. split.
  - intro Hmiss.
    unfold Route.action, Route.respond_failure, Storage.try_catch,
      Storage.bind, Storage.ret, Storage.throw.
    destruct optionSet as [[n|] [vs|] [t|]]; simpl in *; trivial;
      try (destruct Hmiss as [H|[H|H]]; discriminate).
    destruct (Js.truthy n) eqn:Hn, (Js.truthy t) eqn:Ht; trivial.
    exfalso. apply truthy_string_nonempty in Hn, Ht.
    destruct Hmiss as [H|[H|H]]; [contradiction|discriminate|contradiction].
  - intros name values type -> Hn Ht Hok.
    rewrite (action_add_eq shop name type values w Hn Ht).
    rewrite (createOptions_eq shop _ w Hok).
    cbn [ShopServer.od_values ShopServer.od_name Js.default_to].
    unfold Route.form_values, Js.mapi. rewrite validate_form_values.
    split; [|split].
    + intro Hin. now rewrite (proj2 (includes_In values "") Hin).
    + intros Hne Htaken.
      now rewrite (includes_empty_false values Hne), Htaken.
    + intros Hne Hfree Hdup.
      rewrite (includes_empty_false values Hne), Hfree.
      unfold value_names. rewrite raw_columns_names.
      destruct (Storage.has_dup values) eqn:D; trivial.
      apply has_dup_false in D. contradiction.
Qed.

(** X26.  The action never throws: every request is answered.  A
    delete request is answered with the count and the rows
    [deleteOptions] returned, or with the message of what it threw, which
    starts with "Failed to delete options: "; an edit request with the
    option [updateOptions] returned or the message of what it threw; any
    other action type with [null].  The world after the answer is the one
    the persistence function left. *)
Theorem action_always_answers
    (shop : string) (request : Route.Request) (w : Storage.World) :
  (exists response w',
      Route.action shop request w = (Storage.Return response, w'))
  /\ (forall optionIds,
        request = Route.DeleteOptions optionIds ->
        match ShopServer.deleteOptions optionIds (Some shop) w with
        | (Storage.Return r, w') =>
            Route.action shop request w
            = (Storage.Return
                 (Route.OptionsDeleted (ShopServer.count r)
                    (ShopServer.deletedOptions r)),
               w')
        | (Storage.Throw e, w') =>
            Route.action shop request w
            = (Storage.Return (Route.Failed (Storage.message e)), w')
            /\ exists cause,
                 Storage.message e
                 = ("Failed to delete options: " ++ cause)%string
        end)
  /\ (forall optionId d,
        request = Route.EditOption optionId d ->
        match ShopServer.updateOptions optionId
                (ShopServer.mkOptionData (SubmitData.optionName d)
                   (Some (SubmitData.optionType d)) None None
                   (Some (Route.form_values (SubmitData.values d)))) w with
        | (Storage.Return u, w') =>
            Route.action shop request w
            = (Storage.Return (Route.OptionSaved u), w')
        | (Storage.Throw e, w') =>
            Route.action shop request w
            = (Storage.Return (Route.Failed (Storage.message e)), w')
        end)
  /\ (request = Route.OtherAction ->
      Route.action shop request w = (Storage.Return Route.NoResponse, w)).
Proof.
  split; [|split; [|split]].
  - unfold Route.action, Storage.try_catch.
    match goal with
    | |- context [match ?m w with _ => _ end] => destruct (m w) as [[r|e] w']
    end; eexists _, _; reflexivity.
  - intros optionIds ->. rewrite action_delete_eq.
    unfold ShopServer.deleteOptions, Storage.try_catch, Storage.throw.
    destruct (ShopServer.deleteOptions_try optionIds (Some shop) w)
      as [[r|e] w']; trivial.
    split; trivial. now exists (Storage.message e).
  - intros optionId d ->. rewrite action_edit_eq.
    now destruct (ShopServer.updateOptions _ _ w) as [[u|e] w'].
  - now intros ->.
Qed.

Section EditAction.
Import Storage ShopServer.




End EditAction.



(* ------------------------------------------------------------------ *)
(** ** app._index.jsx and useOptions.js: from the tables to the store *)
(* ------------------------------------------------------------------ *)

Section LoaderSync.
Import Storage ShopServer.









End LoaderSync.


(* ------------------------------------------------------------------ *)
(** ** From the modals to the server and to the store *)
(* ------------------------------------------------------------------ *)





